(** * Musicly OCR utility: result normalisation and multi-language aggregation

    A shallow embedding of [ocr_utils.py] (class [OCRProcessor]), of the
    command-line front end [main.py] and of the installation check
    [test_installation.py], and the properties of the normalisation /
    aggregation layer and of its callers.

    Modelling conventions.
    - A Python [str] is a Rocq [string] holding its UTF-8 encoding.
    - A Python [float] and a numpy [float64] are IEEE 754 binary64 numbers:
      Rocq's primitive [float], with its operations, its infinities, its NaN
      and its two zeros.  A numpy [int64] is an integer in [[-2^63, 2^63)]
      whose arithmetic wraps around.  Exact rationals ([Q]) only serve to
      read off the decimal digits of a float ([round], [format]).
    - What the OCR engine hands back is dynamically typed where the source
      inspects it at run time (the fields of a line) and typed where the
      source follows its annotation ([ocr_result: List], a list of pages,
      each page [None] or a list of lines, each line a sequence of fields).
    - Exceptions are values of [exn]; a computation that may raise returns a
      [result]; logging and engine invocations are recorded in a trace.
      Only subclasses of [Exception] are considered, which is what the
      [except Exception] of the source catches.
    - A Python [dict] is an insertion-ordered association list ([Dict]);
      [list(set(...))] goes through a [gset], whose order of enumeration is
      as unspecified as Python's.
    - The engines, the file system, the console and the library functions
      whose full behaviour is not needed ([str] of a non-string, [float] of a
      string, numpy on arrays that are not two-dimensional [int64] or
      [float64] arrays, the grouping of numpy's sum of eight or more items)
      are fields of a [world] over which every statement is quantified, as
      are the version of the interpreter where the built-in [sum] depends on
      it, and that of numpy where the zero its sum starts from does. *)

From Stdlib Require Import Ascii String QArith Qround Floats.
From stdpp Require Import base option list strings gmap pretty.

Local Open Scope Q_scope.
Local Open Scope string_scope.
Local Open Scope list_scope.

(** ** Python values and exceptions *)

#[local] Set Warnings "-register-all".
#[local] Set Warnings "-inexact-float".

(** The objects that can occur as a field of a raw detection line. *)
Inductive value : Type :=
| VNone
| VInt (n : Z)
| VFloat (x : float)
| VStr (s : string)
| VTuple (items : list value)
| VList (items : list value).

(** Exceptions (all of them subclasses of Python's [Exception]).
    [InvalidImageError] and [LanguageNotInitialized] are the two
    [ValueError]s raised by [process_image], told apart by their message:
    "Invalid image file: {image_path}" and
    "Language '{language}' not initialized. Available: {available}". *)
Inductive exn : Type :=
| FileNotFoundError (image_path : string)
| InvalidImageError (image_path : string)
| LanguageNotInitialized (language : string) (available : list string)
| KeyError (key : string)
| TypeError
| ValueError
| IndexError
| AttributeError
| OverflowError
| UnicodeEncodeError
| BrokenPipeError
| EngineError (code : nat).

(** The Python class of an exception. *)
Inductive exn_class := CFileNotFoundError | CValueError | CKeyError
  | CTypeError | CIndexError | CAttributeError | COverflowError | COther.

Definition class_of (e : exn) : exn_class :=
  match e with
  | FileNotFoundError _ => CFileNotFoundError
  | InvalidImageError _ | LanguageNotInitialized _ _ | ValueError => CValueError
  | KeyError _ => CKeyError
  | TypeError => CTypeError
  | IndexError => CIndexError
  | AttributeError => CAttributeError
  | OverflowError => COverflowError
  | UnicodeEncodeError => CValueError
  | BrokenPipeError => COther
  | EngineError _ => COther
  end.

Inductive result (A : Type) : Type :=
| Ok (a : A)
| Raise (e : exn).
Arguments Ok {A} a.
Arguments Raise {A} e.

#[global] Instance result_ret : MRet result := λ A a, Ok a.
#[global] Instance result_bind : MBind result := λ A B f m,
  match m with
  | Ok a => f a
  | Raise e => Raise e
  end.

Definition is_ok {A} (r : result A) : bool :=
  match r with Ok _ => true | Raise _ => false end.

(** ** Insertion-ordered dictionaries with [str] keys *)

Module Dict.

Definition t (V : Type) : Type := list (string * V).

Definition empty {V} : t V := [].

Fixpoint get {V} (d : t V) (k : string) : option V :=
  match d with
  | [] => None
  | (k', v) :: d' => if String.eqb k k' then Some v else get d' k
  end.

(** [k in d] *)
Definition contains {V} (d : t V) (k : string) : bool :=
  match get d k with Some _ => true | None => false end.

(** [d[k] = v]: an existing key keeps its position. *)
Fixpoint set {V} (d : t V) (k : string) (v : V) : t V :=
  match d with
  | [] => [(k, v)]
  | (k', v') :: d' =>
      if String.eqb k k' then (k, v) :: d' else (k', v') :: set d' k v
  end.

(** [list(d.keys())] *)
Definition keys {V} (d : t V) : list string := map fst d.

(** [d[k]], raising [KeyError] on a missing key. *)
Definition getitem {V} (d : t V) (k : string) : result V :=
  match get d k with
  | Some v => Ok v
  | None => Raise (KeyError k)
  end.

End Dict.

(** ** Strings: [str.strip] *)

Definition byte (c : ascii) : N := N_of_ascii c.

(** If [s] starts with a character for which [str.isspace] holds, the rest of
    [s] after that character.  The characters are U+0009..U+000D,
    U+001C..U+0020, U+0085, U+00A0, U+1680, U+2000..U+200A, U+2028, U+2029,
    U+202F, U+205F, U+3000, matched here in their UTF-8 encoding. *)
Definition space_prefix (s : string) : option string :=
  match s with
  | String a r1 =>
      let a := byte a in
      if ((9 <=? a) && (a <=? 13) || (28 <=? a) && (a <=? 32))%N then Some r1
      else
        match r1 with
        | String b r2 =>
            let b := byte b in
            if ((a =? 194) && ((b =? 133) || (b =? 160)))%N then Some r2
            else
              match r2 with
              | String c r3 =>
                  let c := byte c in
                  if ((a =? 225) && (b =? 154) && (c =? 128))%N then Some r3
                  else if ((a =? 226) && (b =? 128) &&
                           ((128 <=? c) && (c <=? 138) || (c =? 168)
                            || (c =? 169) || (c =? 175)))%N then Some r3
                  else if ((a =? 226) && (b =? 129) && (c =? 159))%N then Some r3
                  else if ((a =? 227) && (b =? 128) && (c =? 128))%N then Some r3
                  else None
              | EmptyString => None
              end
        | EmptyString => None
        end
  | EmptyString => None
  end.

(** The same test at the end of a string, on its bytes in reverse order. *)
Definition space_suffix_rev (s : string) : option string :=
  match s with
  | String a r1 =>
      let a := byte a in
      if ((9 <=? a) && (a <=? 13) || (28 <=? a) && (a <=? 32))%N then Some r1
      else
        match r1 with
        | String b r2 =>
            let b := byte b in
            if ((b =? 194) && ((a =? 133) || (a =? 160)))%N then Some r2
            else
              match r2 with
              | String c r3 =>
                  let c := byte c in
                  if ((c =? 225) && (b =? 154) && (a =? 128))%N then Some r3
                  else if ((c =? 226) && (b =? 128) &&
                           ((128 <=? a) && (a <=? 138) || (a =? 168)
                            || (a =? 169) || (a =? 175)))%N then Some r3
                  else if ((c =? 226) && (b =? 129) && (a =? 159))%N then Some r3
                  else if ((c =? 227) && (b =? 128) && (a =? 128))%N then Some r3
                  else None
              | EmptyString => None
              end
        | EmptyString => None
        end
  | EmptyString => None
  end.

(** Drop matched characters while there are any; [fuel] bounds the number of
    characters, and the length of the string is always enough. *)
Fixpoint drop_while (next : string → option string) (fuel : nat) (s : string)
  : string :=
  match fuel with
  | O => s
  | S fuel' =>
      match next s with
      | Some rest => drop_while next fuel' rest
      | None => s
      end
  end.

Definition lstrip (s : string) : string :=
  drop_while space_prefix (String.length s) s.

Definition rstrip (s : string) : string :=
  String.rev (drop_while space_suffix_rev (String.length s) (String.rev s)).

(** [s.strip()] *)
Definition strip (s : string) : string := rstrip (lstrip s).

(** Truth value of a [str]: non-empty. *)
Definition str_bool (s : string) : bool :=
  match s with EmptyString => false | String _ _ => true end.

(** ** Numbers: [float], [int], [round], formatting *)

(** Rounding of a rational to the nearest integer, ties to even. *)
Definition round_half_even (x : Q) : Z :=
  let f := Qfloor x in
  match Qcompare (x - inject_Z f) (1 # 2) with
  | Lt => f
  | Gt => (f + 1)%Z
  | Eq => if Z.even f then f else (f + 1)%Z
  end.

(** [m * 2^e], the magnitude of the finite float of mantissa [m] and
    exponent [e]. *)
Definition dyadic (m : positive) (e : Z) : Q :=
  inject_Z (Z.pos m) * (2 # 1) ^ e.

(** The float nearest to the integer [z], ties to even, and an infinity
    past the largest float: the conversion of a C [int64_t] to [double], and
    that of a Python [int] where it does not overflow. *)
Definition float_of_Z (z : Z) : float :=
  SF2Prim (binary_normalize prec emax z 0 false).

(** [float(n)] for a Python [int]: [OverflowError] where the nearest float
    would be infinite. *)
Definition float_of_int (n : Z) : result float :=
  match binary_normalize prec emax n 0 false with
  | S754_infinity _ => Raise OverflowError
  | x => Ok (SF2Prim x)
  end.

(** The float nearest to [n / d], ties to even: what [strtod] returns for a
    decimal numeral of that value. *)
Definition float_of_ratio (n d : positive) : float :=
  let '(mz, ez, lz) := SFdiv_core_binary prec emax (Z.pos n) 0 (Z.pos d) 0 in
  SF2Prim (binary_round_aux prec emax false mz ez lz).

(** [round(x, 3)] on a float: the decimal numeral with three digits after
    the point that is nearest to the exact value of [x] (ties to even),
    read back as a float; zeros, infinities and NaN round to themselves. *)
Definition round3 (x : float) : float :=
  match Prim2SF x with
  | S754_finite s m e =>
      match round_half_even (dyadic m e * 1000) with
      | Z.pos k =>
          if s then (- float_of_ratio k 1000)%float else float_of_ratio k 1000
      | _ => if s then neg_zero else zero
      end
  | _ => x
  end.

(** [f"{x:.1f}"]: the exact value rounded to one digit after the point,
    ties to even, with the sign of [x]. *)
Definition format_fixed1 (x : float) : string :=
  match Prim2SF x with
  | S754_nan => "nan"
  | S754_infinity s => if s then "-inf" else "inf"
  | S754_zero s => if s then "-0.0" else "0.0"
  | S754_finite s m e =>
      let t := round_half_even (dyadic m e * 10) in
      (if s then "-" else "") ++ pretty (t / 10)%Z ++ "." ++ pretty (t mod 10)%Z
  end.

(** [f"{x:.1%}"]: the float product [x * 100], one digit after the point. *)
Definition format_percent1 (x : float) : string :=
  format_fixed1 (x * 100)%float ++ "%".

(** The built-in [sum] on a non-empty list of floats, from the integer 0.
    Up to Python 3.11 it adds from left to right; from 3.12 on it also
    carries Neumaier's compensation, added at the end when it is finite and
    not zero. *)
Fixpoint neumaier (xs : list float) (f_result c : float) : float :=
  match xs with
  | [] => if negb (c =? 0)%float && is_finite c then (f_result + c)%float
          else f_result
  | x :: rest =>
      let t := (f_result + x)%float in
      let c' := if (abs x <=? abs f_result)%float
                then (c + ((f_result - t) + x))%float
                else (c + ((x - t) + f_result))%float in
      neumaier rest t c'
  end.

Definition py_sum (compensated : bool) (xs : list float) : float :=
  match xs with
  | [] => 0%float
  | x :: rest =>
      if compensated then neumaier rest (0 + x)%float 0%float
      else foldl PrimFloat.add (0 + x)%float rest
  end.

(** ** numpy on a bounding polygon

    [np.array] is modelled on scalars (a 0-d array), on flat sequences of
    numbers (1-d) and on sequences of equally long rows of numbers (2-d):
    of dtype [int64] when every entry is a Python [int] that fits, of dtype
    [float64] when every entry is a [float] or such an [int] (converted).
    For anything else (ragged rows, deeper nesting, entries that are not
    numbers, integers outside [int64]) the array keeps the object it was
    made from, and what the geometry computed from it is, is left to the
    runtime ([np_geometry] below).  The default integer of numpy is taken
    to be 64 bits wide (every platform of numpy 2; Linux and macOS before
    it). *)

(** A Python number. *)
Inductive number : Type := NInt (n : Z) | NFloat (x : float).

Definition fits_int64 (z : Z) : bool := ((- 2 ^ 63 <=? z) && (z <? 2 ^ 63))%Z.

(** The value of an [int64] computation whose exact result is [z]. *)
Definition wrap64 (z : Z) : Z := ((z + 2 ^ 63) mod 2 ^ 64 - 2 ^ 63)%Z.

Inductive ndarray : Type :=
| Arr0
| Arr1
| ArrInt (rows : list (list Z))
| ArrFloat (rows : list (list float))
| ArrOther (data : value).

Definition as_number (v : value) : option number :=
  match v with
  | VInt n => Some (NInt n)
  | VFloat x => Some (NFloat x)
  | _ => None
  end.

Definition as_row (v : value) : option (list number) :=
  match v with
  | VList items | VTuple items => mapM as_number items
  | _ => None
  end.

Definition same_length (rows : list (list number)) : bool :=
  match rows with
  | [] => true
  | r :: rs => forallb (λ r', length r' =? length r)%nat rs
  end.

Definition as_int64 (n : number) : option Z :=
  match n with
  | NInt z => if fits_int64 z then Some z else None
  | NFloat _ => None
  end.

Definition as_float64 (n : number) : option float :=
  match n with
  | NInt z => if fits_int64 z then Some (float_of_Z z) else None
  | NFloat x => Some x
  end.

(** [np.array(bbox)] *)
Definition np_array (bbox : value) : ndarray :=
  match bbox with
  | VList items | VTuple items =>
      match mapM as_number items with
      | Some _ => Arr1
      | None =>
          match mapM as_row items with
          | Some rows =>
              if same_length rows then
                match mapM (mapM as_int64) rows with
                | Some ints => ArrInt ints
                | None =>
                    match mapM (mapM as_float64) rows with
                    | Some floats => ArrFloat floats
                    | None => ArrOther bbox
                    end
                end
              else ArrOther bbox
          | None => ArrOther bbox
          end
      end
  | VNone | VInt _ | VFloat _ | VStr _ => Arr0
  end.

(** [a[:, j]] on a 2-d array *)
Definition column {A} (rows : list (list A)) (j : nat) : result (list A) :=
  match mapM (λ r : list A, r !! j) rows with
  | Some col => Ok col
  | None => Raise IndexError
  end.

(** numpy's [maximum] and [minimum] on two floats: a NaN wins. *)
Definition float_max (a b : float) : float :=
  if (b <=? a)%float || is_nan a then a else b.

Definition float_min (a b : float) : float :=
  if (a <=? b)%float || is_nan a then a else b.

(** [np.max(xs)], [np.min(xs)]: [ValueError] on an empty array. *)
Definition np_max_int (xs : list Z) : result Z :=
  match xs with
  | [] => Raise ValueError
  | x :: xs' => Ok (foldl Z.max x xs')
  end.

Definition np_min_int (xs : list Z) : result Z :=
  match xs with
  | [] => Raise ValueError
  | x :: xs' => Ok (foldl Z.min x xs')
  end.

Definition np_max (xs : list float) : result float :=
  match xs with
  | [] => Raise ValueError
  | x :: xs' => Ok (foldl float_max x xs')
  end.

Definition np_min (xs : list float) : result float :=
  match xs with
  | [] => Raise ValueError
  | x :: xs' => Ok (foldl float_min x xs')
  end.

(** ** Detection records and raw engine output *)

(** The dictionary built for one detection, keys [text], [confidence],
    [language], [bbox], [center], [dimensions]. *)
Module Detection.

Record t : Type := {
  text : value;
  confidence : float;
  language : string;
  bbox : value;
  center : float * float;
  dimensions : float * float
}.

End Detection.

(** One raw detection: its sub-fields, in order. *)
Definition raw_line : Type := list value.
(** One page of the engine's result: [None] or a list of lines. *)
Definition raw_page : Type := option (list raw_line).
(** What [PaddleOCR.ocr] returns: [None] or a list of pages. *)
Definition raw_result : Type := option (list raw_page).

(** An initialised engine: its [ocr(image_path, cls=True)] method, taken to
    be a function of the image path (the same image gives the same answer). *)
Definition engine : Type := string → result raw_result.

(** ** Trace of observable effects *)

Inductive event : Type :=
| InfoInitializing (lang : string)
| InfoAllInitialized
| ErrorInitFailed (e : exn)
| InfoProcessing (lang : string)
| ErrorProcessing (lang : string) (e : exn)
| EngineInvoked (lang : string) (image_path : string).

(** Computations that log, invoke engines and may raise. *)
Definition io (A : Type) : Type := list event * result A.

#[global] Instance io_ret : MRet io := λ A a, ([], Ok a).
#[global] Instance io_bind : MBind io := λ A B f m,
  match m with
  | (t, Ok a) => let '(t', r) := f a in (t ++ t', r)
  | (t, Raise e) => (t, Raise e)
  end.

Definition emit (ev : event) : io unit := ([ev], Ok tt).
Definition raise {A} (e : exn) : io A := ([], Raise e).
Definition lift {A} (r : result A) : io A := ([], r).

(** [try: m except Exception as e: h e] *)
Definition try_except {A} (m : io A) (h : exn → io A) : io A :=
  match m with
  | (t, Raise e) => let '(t', r) := h e in (t ++ t', r)
  | (t, Ok a) => (t, Ok a)
  end.

Definition trace_of {A} (m : io A) : list event := fst m.
Definition outcome {A} (m : io A) : result A := snd m.

(** The state of a path on the file system, as far as the processor looks:
    nothing there, something that PIL cannot open and verify, or an image. *)
Inductive file_status := Missing | Undecodable | Decodable.

(** The object returned by [get_detailed_results]: a dictionary whose values
    are of the following kinds. *)
Inductive dval : Type :=
| DInt (n : nat)
| DFloat (x : float)
| DStr (s : string)
| DStrList (l : list string)
| DRecords (l : list Detection.t)
| DGroups (g : Dict.t (list Detection.t)).

Record OCRProcessor : Type := {
  languages : list string;
  use_gpu : bool;
  ocr_models : Dict.t engine
}.

(** ** The Python runtime and the environment

    What the source relies on and this development keeps abstract:
    - [str_of_object v] is [str(v)] for an object [v] that is not a [str]
      (the rendering of numbers and containers);
    - [float_of_str s] is [float(s)] for a [str], [None] when that raises
      [ValueError];
    - [compensated_sum] tells whether the built-in [sum] compensates
      (Python 3.12 and later);
    - [negative_zero_sum] tells whether numpy's [add] reduction on floats
      starts from -0.0, as the versions of numpy do that keep the sign of a
      sum of negative zeros, rather than from 0.0;
    - [np_pairwise_sum xs] is what this reduction returns on a [float64]
      array of eight or more items, where it adds in groups;
    - [np_geometry v] is, for an object [v] that [np.array] does not turn
      into a 0-, 1- or 2-dimensional [int64] or [float64] array, the centre
      and the dimensions that lines 138 to 151 of [ocr_utils.py] compute from
      it, or the exception numpy raises on the way;
    - [PaddleOCR lang use_gpu] is the engine constructor
      [PaddleOCR(use_angle_cls=True, lang=lang, use_gpu=use_gpu,
      show_log=False)];
    - [fs] is the file system. *)
Record world : Type := {
  str_of_object : value → string;
  float_of_str : string → option float;
  compensated_sum : bool;
  negative_zero_sum : bool;
  np_pairwise_sum : list float → float;
  np_geometry : value → result ((float * float) * (float * float));
  PaddleOCR : string → bool → result engine;
  fs : string → file_status
}.

(** ** The processor *)

Section Processor.

Variable w : world.

(** [str(v)] *)
Definition py_str (v : value) : string :=
  match v with
  | VStr s => s
  | _ => str_of_object w v
  end.

(** [float(v)] *)
Definition py_float (v : value) : result float :=
  match v with
  | VInt n => float_of_int n
  | VFloat x => Ok x
  | VStr s =>
      match float_of_str w s with
      | Some x => Ok x
      | None => Raise ValueError
      end
  | VNone | VTuple _ | VList _ => Raise TypeError
  end.

(** The zero from which numpy's [add] reduction starts. *)
Definition np_zero : float :=
  if negative_zero_sum w then (-0)%float else 0%float.

(** numpy's [add] reduction on a [float64] array: from its zero, from left
    to right when there are fewer than eight items. *)
Definition np_sum (xs : list float) : float :=
  if (length xs <? 8)%nat then foldl PrimFloat.add np_zero xs
  else np_pairwise_sum w xs.

(** [np.mean(xs)] on a [float64] array, and on an [int64] array, whose
    items are converted first. *)
Definition np_mean (xs : list float) : float :=
  (np_sum xs / float_of_Z (Z.of_nat (length xs)))%float.

Definition np_mean_int (xs : list Z) : float := np_mean (map float_of_Z xs).

(** Lines 138 to 142 of [ocr_utils.py], with the conversions of lines 150
    and 151: the centre and the dimensions of a bounding polygon. *)
Definition geometry (bbox : value)
  : result ((float * float) * (float * float)) :=
  match np_array bbox with
  | Arr0 | Arr1 => Raise IndexError
  | ArrInt bbox_array =>
      xs ← column bbox_array 0;
      let center_x := np_mean_int xs in
      ys ← column bbox_array 1;
      let center_y := np_mean_int ys in
      max_x ← np_max_int xs;
      min_x ← np_min_int xs;
      let width := wrap64 (max_x - min_x) in
      max_y ← np_max_int ys;
      min_y ← np_min_int ys;
      let height := wrap64 (max_y - min_y) in
      Ok ((center_x, center_y), (float_of_Z width, float_of_Z height))
  | ArrFloat bbox_array =>
      xs ← column bbox_array 0;
      let center_x := np_mean xs in
      ys ← column bbox_array 1;
      let center_y := np_mean ys in
      max_x ← np_max xs;
      min_x ← np_min xs;
      let width := (max_x - min_x)%float in
      max_y ← np_max ys;
      min_y ← np_min ys;
      let height := (max_y - min_y)%float in
      Ok ((center_x, center_y), (width, height))
  | ArrOther data => np_geometry w data
  end.

(** [v.strip()]: only a [str] has the method. *)
Definition method_strip (v : value) : result string :=
  match v with
  | VStr s => Ok (strip s)
  | _ => Raise AttributeError
  end.

(** [os.path.exists(image_path)] *)
Definition os_path_exists (image_path : string) : bool :=
  match fs w image_path with
  | Missing => false
  | Undecodable | Decodable => true
  end.

(** [Image.open(image_path)] followed by [img.verify()]; the exception
    either of them raises is caught and turned into [False]. *)
Definition _is_valid_image (image_path : string) : bool :=
  match fs w image_path with
  | Decodable => true
  | Missing | Undecodable => false
  end.

(** The text and confidence of a line, from its second sub-field. *)
Definition text_and_confidence (text_info : value) : value * value :=
  match text_info with
  | VTuple items =>
      if (2 <=? length items)%nat
      then (nth 0 items VNone, nth 1 items VNone)
      else (VStr (py_str text_info), VFloat 1)
  | _ => (VStr (py_str text_info), VFloat 1)
  end.

(** The body of the loop of [_process_ocr_results] for a line with at
    least two sub-fields: the record that is appended. *)
Definition line_record (line : raw_line) (language : string)
  : result Detection.t :=
  let bbox := nth 0 line VNone in
  let text_info := nth 1 line VNone in
  let '(text, confidence) := text_and_confidence text_info in
  '(center, dimensions) ← geometry bbox;
  confidence ← py_float confidence;
  Ok {| Detection.text := text;
        Detection.confidence := confidence;
        Detection.language := language;
        Detection.bbox := bbox;
        Detection.center := center;
        Detection.dimensions := dimensions |}.

(** [for line in ocr_result[0]: ...], with the list built so far. *)
Fixpoint process_lines (lines : list raw_line) (language : string)
    (processed_results : list Detection.t)
  : result (list Detection.t) :=
  match lines with
  | [] => Ok processed_results
  | line :: rest =>
      if (2 <=? length line)%nat then
        r ← line_record line language;
        process_lines rest language (processed_results ++ [r])
      else process_lines rest language processed_results
  end.

Definition _process_ocr_results (ocr_result : raw_result) (language : string)
  : result (list Detection.t) :=
  let processed_results := [] in
  match ocr_result with
  | None | Some [] => Ok processed_results
  | Some (None :: _) | Some (Some [] :: _) => Ok processed_results
  | Some (Some lines :: _) => process_lines lines language processed_results
  end.

(** [_initialize_models]: the loop, from the registry built so far. *)
Fixpoint initialize_loop (langs : list string) (gpu : bool)
    (models : Dict.t engine) : io (Dict.t engine) :=
  match langs with
  | [] => mret models
  | lang :: rest =>
      _ ← emit (InfoInitializing lang);
      model ← lift (PaddleOCR w lang gpu);
      initialize_loop rest gpu (Dict.set models lang model)
  end.

Definition _initialize_models (self : OCRProcessor) : io OCRProcessor :=
  try_except
    (models ← initialize_loop (languages self) (use_gpu self) (ocr_models self);
     _ ← emit InfoAllInitialized;
     mret {| languages := languages self;
             use_gpu := use_gpu self;
             ocr_models := models |})
    (λ e, _ ← emit (ErrorInitFailed e); raise e).

(** [OCRProcessor(languages, use_gpu)] *)
Definition __init__ (languages : option (list string)) (use_gpu : bool)
  : io OCRProcessor :=
  let languages := default ["en"; "hi"] languages in
  _initialize_models {| languages := languages;
                        use_gpu := use_gpu;
                        ocr_models := Dict.empty |}.

(** [for lang in languages_to_use: ...] of [process_image], with the
    results collected so far. *)
Fixpoint process_languages (self : OCRProcessor) (image_path : string)
    (languages_to_use : list string) (results : list Detection.t)
  : io (list Detection.t) :=
  match languages_to_use with
  | [] => mret results
  | lang :: rest =>
      results' ←
        try_except
          (_ ← emit (InfoProcessing lang);
           model ← lift (Dict.getitem (ocr_models self) lang);
           _ ← emit (EngineInvoked lang image_path);
           ocr_result ← lift (model image_path);
           processed_results ← lift (_process_ocr_results ocr_result lang);
           mret (results ++ processed_results))
          (λ e, _ ← emit (ErrorProcessing lang e); mret results);
      process_languages self image_path rest results'
  end.

Definition process_image (self : OCRProcessor) (image_path : string)
    (language : option string) : io (list Detection.t) :=
  if negb (os_path_exists image_path)
  then raise (FileNotFoundError image_path)
  else if negb (_is_valid_image image_path)
  then raise (InvalidImageError image_path)
  else
    languages_to_use ←
      match language with
      | Some l =>
          if str_bool l then
            if negb (Dict.contains (ocr_models self) l)
            then raise (LanguageNotInitialized l (Dict.keys (ocr_models self)))
            else mret [l]
          else mret (languages self)
      | None => mret (languages self)
      end;
    process_languages self image_path languages_to_use [].

(** [[result['text'] for result in results if result['text'].strip()]] *)
Fixpoint stripped_texts (results : list Detection.t)
  : result (list value) :=
  match results with
  | [] => Ok []
  | r :: rest =>
      s ← method_strip (Detection.text r);
      texts ← stripped_texts rest;
      Ok (if str_bool s then Detection.text r :: texts else texts)
  end.

Definition extract_text_only (self : OCRProcessor) (image_path : string)
    (language : option string) : io (list value) :=
  results ← process_image self image_path language;
  lift (stripped_texts results).

(** The grouping loop of [get_detailed_results]. *)
Fixpoint group_by_language (results : list Detection.t)
    (results_by_language : Dict.t (list Detection.t))
  : Dict.t (list Detection.t) :=
  match results with
  | [] => results_by_language
  | r :: rest =>
      let lang := Detection.language r in
      let d :=
        if negb (Dict.contains results_by_language lang)
        then Dict.set results_by_language lang []
        else results_by_language in
      let d := Dict.set d lang (default [] (Dict.get d lang) ++ [r]) in
      group_by_language rest d
  end.

Definition get_detailed_results (self : OCRProcessor) (image_path : string)
    (language : option string) : io (Dict.t dval) :=
  results ← process_image self image_path language;
  match results with
  | [] =>
      mret [ ("text_count", DInt 0);
             ("languages_detected", DStrList []);
             ("average_confidence", DFloat 0);
             ("results", DRecords []);
             ("summary", DStr "No text detected") ]
  | _ :: _ =>
      let text_count := length results in
      let languages_detected :=
        elements (list_to_set (map Detection.language results) : gset string) in
      let confidences := map Detection.confidence results in
      let average_confidence :=
        match confidences with
        | [] => 0%float
        | _ :: _ =>
            (py_sum (compensated_sum w) confidences
             / float_of_Z (Z.of_nat (length confidences)))%float
        end in
      let results_by_language := group_by_language results Dict.empty in
      mret [ ("text_count", DInt text_count);
             ("languages_detected", DStrList languages_detected);
             ("average_confidence", DFloat (round3 average_confidence));
             ("results", DRecords results);
             ("results_by_language", DGroups results_by_language);
             ("summary",
              DStr ("Detected " ++ pretty text_count ++ " text elements in "
                    ++ pretty (length languages_detected)
                    ++ " languages with " ++ format_percent1 average_confidence
                    ++ " average confidence")) ]
  end.

End Processor.

(** ** Notions used in the statements *)

Definition is_str (v : value) : bool :=
  match v with VStr _ => true | _ => false end.

(** A text that is a [str] and is not empty once trimmed. *)
Definition nonblank (v : value) : bool :=
  match v with VStr s => str_bool (strip s) | _ => false end.

(** The [text] fields of the records whose trimmed text is not empty, in
    the order of the records. *)
Definition nonblank_texts (recs : list Detection.t) : list value :=
  map Detection.text (filter (λ r, nonblank (Detection.text r)) recs).

(** What the body of the [try] of [process_image] computes for one language:
    the registry lookup, the engine invocation and the normalisation. *)
Definition language_outcome (w : world) (self : OCRProcessor)
    (image_path lang : string) : result (list Detection.t) :=
  model ← Dict.getitem (ocr_models self) lang;
  ocr_result ← model image_path;
  _process_ocr_results w ocr_result lang.

(** The records a language contributes: those of its outcome when it
    succeeded, none when it raised. *)
Definition records_of (w : world) (self : OCRProcessor)
    (image_path lang : string) : list Detection.t :=
  match language_outcome w self image_path lang with
  | Ok recs => recs
  | Raise _ => []
  end.

(** The events of one iteration of the loop of [process_image]. *)
Definition language_trace (w : world) (self : OCRProcessor)
    (image_path lang : string) : list event :=
  InfoProcessing lang ::
  match Dict.get (ocr_models self) lang with
  | None => [ErrorProcessing lang (KeyError lang)]
  | Some model =>
      EngineInvoked lang image_path ::
      match model image_path ≫= (λ r, _process_ocr_results w r lang) with
      | Ok _ => []
      | Raise e => [ErrorProcessing lang e]
      end
  end.

(** The languages a query selects, or the error of an unknown language. *)
Definition selected_languages (self : OCRProcessor) (language : option string)
  : result (list string) :=
  match language with
  | Some l =>
      if str_bool l then
        if Dict.contains (ocr_models self) l then Ok [l]
        else Raise (LanguageNotInitialized l (Dict.keys (ocr_models self)))
      else Ok (languages self)
  | None => Ok (languages self)
  end.

(** The records of the lines with at least two sub-fields, without the
    accumulator of the loop. *)
Fixpoint normalised_lines (w : world) (lines : list raw_line)
    (language : string) : result (list Detection.t) :=
  match lines with
  | [] => Ok []
  | line :: rest =>
      if (2 <=? length line)%nat then
        r ← line_record w line language;
        rs ← normalised_lines w rest language;
        Ok (r :: rs)
      else normalised_lines w rest language
  end.

(** The lines of the first page of a raw result. *)
Definition first_page_lines (ocr_result : raw_result) : list raw_line :=
  match ocr_result with
  | Some (Some lines :: _) => lines
  | _ => []
  end.

(** The confidence the engine reported for a line: the second item of its
    (text, confidence) tuple, or the default 1.0 of a bare text. *)
Definition reported_confidence (w : world) (line : raw_line) : value :=
  snd (text_and_confidence w (nth 1 line VNone)).

(** Numbers as the engine writes them, among the values. *)
Definition number_value (n : number) : value :=
  match n with NInt z => VInt z | NFloat x => VFloat x end.

(** A polygon as the engine writes it: a list of [[x, y]] points. *)
Definition polygon (points : list (number * number)) : value :=
  VList (map (λ p, VList [number_value p.1; number_value p.2]) points).

(** The canonical empty result of [get_detailed_results]. *)
Definition empty_result : Dict.t dval :=
  [ ("text_count", DInt 0);
    ("languages_detected", DStrList []);
    ("average_confidence", DFloat 0);
    ("results", DRecords []);
    ("summary", DStr "No text detected") ].

(** Polygons whose coordinates are all Python [int]s, or all [float]s. *)
Definition int_polygon (points : list (Z * Z)) : value :=
  polygon (map (λ p, (NInt p.1, NInt p.2)) points).

Definition float_polygon (points : list (float * float)) : value :=
  polygon (map (λ p, (NFloat p.1, NFloat p.2)) points).

(** The mean of four floats as numpy computes it: the sum from its zero,
    from left to right, divided by 4, each operation rounded to the nearest
    float. *)
Definition mean4 (w : world) (a b c d : float) : float :=
  ((np_zero w + a + b + c + d) / 4)%float.

(** The largest and the smallest of four floats, and of four integers. *)
Definition max4 (a b c d : float) : float :=
  float_max (float_max (float_max a b) c) d.

Definition min4 (a b c d : float) : float :=
  float_min (float_min (float_min a b) c) d.

Definition max4_int (a b c d : Z) : Z := Z.max (Z.max (Z.max a b) c) d.

Definition min4_int (a b c d : Z) : Z := Z.min (Z.min (Z.min a b) c) d.

(** An integer coordinate small enough for the difference of two of them to
    fit in an [int64]. *)
Definition half_range (z : Z) : Prop := (- 2 ^ 62 <= z < 2 ^ 62)%Z.

(** A float that is a zero, positive, or the positive infinity; a float that
    is a zero or a finite number: read on the specification of binary64. *)
Definition sf_nonneg (x : spec_float) : Prop :=
  match x with
  | S754_zero _ | S754_finite false _ _ | S754_infinity false => True
  | _ => False
  end.

Definition sf_finite (x : spec_float) : Prop :=
  match x with
  | S754_zero _ | S754_finite _ _ _ => True
  | _ => False
  end.

(** ** Sample data for the closed examples *)

(** An axis-aligned box with integer corners, as a 4-point polygon. *)
Definition sample_box (x0 y0 x1 y1 : Z) : value :=
  polygon [(NInt x0, NInt y0); (NInt x1, NInt y0);
           (NInt x1, NInt y1); (NInt x0, NInt y1)].

Definition engine_en : engine :=
  λ _, Ok (Some [Some [[sample_box 0 0 10 4; VTuple [VStr "Hello"; VFloat 0.95]]]]).

Definition engine_hi : engine :=
  λ _, Ok (Some [Some [[sample_box 0 5 10 9; VTuple [VStr "नमस्ते"; VFloat 0.88]]]]).

Definition engine_failing : engine := λ _, Raise (EngineError 1).

Definition engine_blank_page : engine := λ _, Ok (Some [None]).

(** An engine whose one detection has a number where the text should be. *)
Definition engine_number_text : engine :=
  λ _, Ok (Some [Some [[sample_box 0 0 8 2; VTuple [VInt 123; VFloat 0.5]]]]).

(** An engine whose one detection has confidence 1/16. *)
Definition engine_sixteenth : engine :=
  λ _, Ok (Some [Some [[sample_box 0 0 8 2; VTuple [VStr "Hi"; VFloat 0.0625]]]]).

(** A runtime in which [float] parses no string, [str] renders every
    object as the empty string, numpy adds long arrays from left to right
    and raises on an irregular array (none of the four is reached by the
    examples), [sum] does not compensate, every engine can be constructed,
    and two files exist. *)
Definition sample_world : world :=
  {| str_of_object := λ _, "";
     float_of_str := λ _, None;
     compensated_sum := false;
     negative_zero_sum := false;
     np_pairwise_sum := foldl PrimFloat.add 0%float;
     np_geometry := λ _, Raise IndexError;
     PaddleOCR := λ lang _,
       if String.eqb lang "en" then Ok engine_en
       else if String.eqb lang "hi" then Ok engine_hi
       else Ok engine_failing;
     fs := λ path,
       if String.eqb path "sample.jpg" then Decodable
       else if String.eqb path "notes.txt" then Undecodable
       else Missing |}.

Definition processor (langs : list (string * engine)) : OCRProcessor :=
  {| languages := map fst langs; use_gpu := false; ocr_models := langs |}.

(** ** The command-line front end ([main.py]) *)

(** The line feed of ["\n=== ... ==="]. *)
Definition newline : string := String "010" "".

(** The characters of a [str], each in its UTF-8 encoding. *)
Fixpoint chars (s : string) : list string :=
  match s with
  | EmptyString => []
  | String a r1 =>
      if (byte a <? 192)%N then String a "" :: chars r1
      else
        match r1 with
        | EmptyString => [String a ""]
        | String b r2 =>
            if (byte a <? 224)%N then String a (String b "") :: chars r2
            else
              match r2 with
              | EmptyString => [String a (String b "")]
              | String c r3 =>
                  if (byte a <? 240)%N
                  then String a (String b (String c "")) :: chars r3
                  else
                    match r3 with
                    | EmptyString => [String a (String b (String c ""))]
                    | String d r4 =>
                        String a (String b (String c (String d ""))) :: chars r4
                    end
              end
        end
  end.

(** What one [print] call writes: a text, a text followed by [str(e)] of an
    exception, by the [repr] of a list of strings or by [str] of a value of
    the detailed dictionary, or the usage text of the argument parser. *)
Inductive message : Type :=
| Text (s : string)
| TextExn (s : string) (e : exn)
| TextList (s : string) (l : list string)
| TextVal (s : string) (v : dval)
| Usage.

(** What the front end does, in order: the [print] calls that returned, the
    effects of the processor, and the two log lines of
    [create_sample_image]. *)
Inductive cli_event : Type :=
| Print (m : message)
| Effect (ev : event)
| InfoSampleCreated (output_path : string)
| ErrorSampleFailed (e : exn).

Definition cli (A : Type) : Type := list cli_event * result A.

#[global] Instance cli_ret : MRet cli := λ A a, ([], Ok a).
#[global] Instance cli_bind : MBind cli := λ A B f m,
  match m with
  | (t, Ok a) => let '(t', r) := f a in (t ++ t', r)
  | (t, Raise e) => (t, Raise e)
  end.

Definition cli_emit (ev : cli_event) : cli unit := ([ev], Ok tt).
Definition cli_lift {A} (r : result A) : cli A := ([], r).
(** A call into the processor. *)
Definition cli_io {A} (m : io A) : cli A := (map Effect (fst m), snd m).

(** [try: m except Exception as e: h e] *)
Definition cli_try {A} (m : cli A) (h : exn → cli A) : cli A :=
  match m with
  | (t, Raise e) => let '(t', r) := h e in (t ++ t', r)
  | (t, Ok a) => (t, Ok a)
  end.

(** The parsed command line. *)
Module Args.

Record t : Type := {
  image_path : option string;
  lang : option string;
  detailed : bool;
  create_sample : bool;
  gpu : bool;
  languages : list string
}.

End Args.

(** The environment of the front end: the one of the processor; the numpy
    and OpenCV calls of [create_sample_image] (building the canvas, five
    [putText], [imwrite]) as one step that returns or raises; and the
    standard output, where writing a message returns or raises (a
    [UnicodeEncodeError] when the encoding of the console lacks one of its
    characters, an [OSError] when the console is gone). *)
Record cli_world : Type := {
  runtime : world;
  draw_sample : string → result unit;
  stdout : message → result unit
}.

(** Truth value of an entry of the detailed dictionary. *)
Definition dval_bool (v : dval) : bool :=
  match v with
  | DInt n => negb (n =? 0)%nat
  | DFloat x => negb (x =? 0)%float
  | DStr s => str_bool s
  | DStrList l => negb (bool_decide (l = []))
  | DRecords l => match l with [] => false | _ :: _ => true end
  | DGroups g => match g with [] => false | _ :: _ => true end
  end.

(** [', '.join(v)] *)
Definition join_of (v : dval) : result string :=
  match v with
  | DStrList l => Ok (String.concat ", " l)
  | DStr s => Ok (String.concat ", " (chars s))
  | DGroups g => Ok (String.concat ", " (Dict.keys g))
  | DRecords [] => Ok ""
  | DRecords (_ :: _) | DInt _ | DFloat _ => Raise TypeError
  end.

(** [f"{v:.1%}"] *)
Definition percent_of (v : dval) : result string :=
  match v with
  | DFloat x => Ok (format_percent1 x)
  | DInt n => x ← float_of_int (Z.of_nat n); Ok (format_percent1 x)
  | DStr _ => Raise ValueError
  | DStrList _ | DRecords _ | DGroups _ => Raise TypeError
  end.

Section FrontEnd.

Variable cw : cli_world.

(** [print(m)] *)
Definition print (m : message) : cli unit :=
  match stdout cw m with
  | Ok _ => ([Print m], Ok tt)
  | Raise e => ([], Raise e)
  end.

(** [create_sample_image(output_path)] of [ocr_utils.py] *)
Definition create_sample_image (output_path : string) : cli bool :=
  cli_try
    (_ ← cli_lift (draw_sample cw output_path);
     _ ← cli_emit (InfoSampleCreated output_path);
     mret true)
    (λ e, _ ← cli_emit (ErrorSampleFailed e); mret false).

(** [for i, text in enumerate(texts, i): print(f"  {i}. {text}")] *)
Fixpoint print_numbered (i : nat) (texts : list value) : cli unit :=
  match texts with
  | [] => mret tt
  | text :: rest =>
      _ ← print (Text ("  " ++ pretty i ++ ". " ++ py_str (runtime cw) text));
      print_numbered (S i) rest
  end.

Definition print_results_simple (texts : list value) : cli unit :=
  _ ← print (Text (newline ++ "=== OCR Results ==="));
  match texts with
  | _ :: _ =>
      _ ← print (Text ("Detected " ++ pretty (length texts) ++ " text elements:"));
      print_numbered 1 texts
  | [] => print (Text "No text detected in the image.")
  end.

(** The six [print] calls for one record of the detailed view. *)
Definition print_record (i : nat) (r : Detection.t) : cli unit :=
  _ ← print (Text ("  " ++ pretty i ++ ". Text: '"
                   ++ py_str (runtime cw) (Detection.text r) ++ "'"));
  _ ← print (Text ("     Language: " ++ Detection.language r));
  _ ← print (Text ("     Confidence: " ++ format_percent1 (Detection.confidence r)));
  _ ← print (Text ("     Position: Center at ("
                   ++ format_fixed1 (Detection.center r).1 ++ ", "
                   ++ format_fixed1 (Detection.center r).2 ++ ")"));
  _ ← print (Text ("     Size: " ++ format_fixed1 (Detection.dimensions r).1
                   ++ " x " ++ format_fixed1 (Detection.dimensions r).2));
  print (Text "").

Fixpoint print_records (i : nat) (records : list Detection.t) : cli unit :=
  match records with
  | [] => mret tt
  | r :: rest => _ ← print_record i r; print_records (S i) rest
  end.

Definition print_results_detailed (results : Dict.t dval) : cli unit :=
  _ ← print (Text (newline ++ "=== Detailed OCR Results ==="));
  summary ← cli_lift (Dict.getitem results "summary");
  _ ← print (TextVal "Summary: " summary);
  langs ← cli_lift (Dict.getitem results "languages_detected");
  joined ← cli_lift (join_of langs);
  _ ← print (Text ("Languages detected: " ++ joined));
  average ← cli_lift (Dict.getitem results "average_confidence");
  percent ← cli_lift (percent_of average);
  _ ← print (Text ("Average confidence: " ++ percent));
  records ← cli_lift (Dict.getitem results "results");
  if dval_bool records then
    _ ← print (Text (newline ++ "Detailed results:"));
    match records with
    | DRecords l => print_records 1 l
    | _ => cli_lift (Raise TypeError)
    end
  else print (Text "No text detected in the image.").

(** Construction of the processor in [main], with its two outcomes. *)
Definition main_construct (args : Args.t) : cli (option OCRProcessor) :=
  cli_try
    (_ ← print (TextList "Initializing OCR processor with languages: "
                  (Args.languages args));
     ocr ← cli_io (__init__ (runtime cw) (Some (Args.languages args))
                     (Args.gpu args));
     _ ← print (Text "✓ OCR processor initialized successfully!");
     mret (Some ocr))
    (λ e,
       _ ← print (TextExn "✗ Failed to initialize OCR processor: " e);
       _ ← print (Text "Please ensure all dependencies are installed: pip install -r requirements.txt");
       mret None).

(** The last [try] of [main]: processing and printing. *)
Definition main_process (args : Args.t) (ocr : OCRProcessor)
    (image_path : string) : cli unit :=
  cli_try
    (_ ← print (Text (newline ++ "Processing image: " ++ image_path));
     if Args.detailed args then
       results ← cli_io (get_detailed_results (runtime cw) ocr image_path
                           (Args.lang args));
       print_results_detailed results
     else
       texts ← cli_io (extract_text_only (runtime cw) ocr image_path
                         (Args.lang args));
       print_results_simple texts)
    (λ e, print (TextExn "✗ Error processing image: " e)).

(** [main()] of [main.py], after argument parsing. *)
Definition main (args : Args.t) : cli unit :=
  if Args.create_sample args then
    _ ← print (Text "Creating sample image...");
    created ← create_sample_image "sample.jpg";
    if (created : bool) then
      _ ← print (Text "✓ Sample image 'sample.jpg' created successfully!");
      print (Text "You can now test OCR with: python main.py sample.jpg")
    else print (Text "✗ Failed to create sample image")
  else
    match Args.image_path args with
    | None | Some EmptyString =>
        _ ← print Usage;
        print (Text (newline ++ "No image path provided. Use --create-sample to create a test image."))
    | Some image_path =>
        if negb (os_path_exists (runtime cw) image_path) then
          _ ← print (Text ("Error: Image file not found: " ++ image_path));
          print (Text "Use --create-sample to create a test image, or provide a valid image path.")
        else
          constructed ← main_construct args;
          match constructed with
          | None => mret tt
          | Some ocr => main_process args ocr image_path
          end
    end.

End FrontEnd.

(** ** The installation check ([test_installation.py]) *)

(** What an [import] can do: return, raise [ImportError], or raise another
    exception (an [OSError] of a shared library, say).  A module that ends
    the interpreter while it is imported is not covered. *)
Inductive import_outcome :=
| Imported
| ImportFails
| ImportRaises (e : exn).

(** What importing [ocr_utils] can do: the same, or run the
    [except ImportError] branch at the top of [ocr_utils.py], which prints
    two lines and calls [exit(1)]. *)
Inductive ocr_import :=
| OcrImported
| OcrNotFound
| OcrMissingDependency
| OcrRaises (e : exn).

(** A printed line; [SaidWithError s] is [s] followed by [str(e)] of the
    [ImportError]. *)
Inductive check_line := Said (s : string) | SaidWithError (s : string).

Record python_env : Type := {
  import_module : string → import_outcome;
  import_ocr_utils : ocr_import;
  console : check_line → result unit
}.

(** How a call of the script ends when it does not return: with an
    exception that nothing catches, or with [exit(code)]. *)
Inductive abort := Uncaught (e : exn) | SystemExit (code : Z).

(** Computations of the script: the lines printed, and a value or an
    abort. *)
Definition script (A : Type) : Type := list check_line * (A + abort).

#[global] Instance script_ret : MRet script := λ A a, ([], inl a).
#[global] Instance script_bind : MBind script := λ A B f m,
  match m with
  | (t, inl a) => let '(t', r) := f a in (t ++ t', r)
  | (t, inr stop) => (t, inr stop)
  end.

Section Installation.

Variable env : python_env.

(** [print(line)] *)
Definition say (line : check_line) : script unit :=
  match console env line with
  | Ok _ => ([line], inl tt)
  | Raise e => ([], inr (Uncaught e))
  end.

Definition test_import (module_name : string) : script bool :=
  match import_module env module_name with
  | Imported =>
      _ ← say (Said ("✓ " ++ module_name ++ " imported successfully"));
      mret true
  | ImportFails =>
      _ ← say (SaidWithError ("✗ " ++ module_name ++ " import failed: "));
      mret false
  | ImportRaises e => ([], inr (Uncaught e))
  end.

Definition test_ocr_utility : script bool :=
  match import_ocr_utils env with
  | OcrImported => _ ← say (Said "✓ OCR utility imported successfully"); mret true
  | OcrNotFound =>
      _ ← say (SaidWithError "✗ OCR utility import failed: "); mret false
  | OcrMissingDependency =>
      _ ← say (SaidWithError "Error: Missing required dependencies. Please install them first: ");
      _ ← say (Said "Run: pip install -r requirements.txt");
      ([], inr (SystemExit 1))
  | OcrRaises e => ([], inr (Uncaught e))
  end.

Definition dependencies : list string :=
  ["paddlepaddle"; "paddleocr"; "cv2"; "PIL"; "numpy"].

(** [for dep in dependencies: if not test_import(dep): all_deps_ok = False] *)
Fixpoint test_dependencies (deps : list string) (all_deps_ok : bool)
  : script bool :=
  match deps with
  | [] => mret all_deps_ok
  | dep :: rest =>
      ok ← test_import dep;
      test_dependencies rest (if negb ok then false else all_deps_ok)
  end.

Fixpoint say_all (lines : list check_line) : script unit :=
  match lines with
  | [] => mret tt
  | line :: rest => _ ← say line; say_all rest
  end.

(** The lines of the summary of [main]. *)
Definition summary_lines (all_deps_ok ocr_ok : bool) : list check_line :=
  if all_deps_ok && ocr_ok then
    [Said "🎉 All tests passed! Your OCR utility is ready to use.";
     Said (newline ++ "Next steps:");
     Said "1. Create a sample image: python main.py --create-sample";
     Said "2. Test OCR: python main.py sample.jpg";
     Said "3. See examples: python main.py --examples"]
  else
    [Said "❌ Some tests failed. Please check the errors above.";
     Said (newline ++ "Troubleshooting:");
     Said "1. Install dependencies: pip install -r requirements.txt";
     Said "2. Check Python version (requires 3.7+)";
     Said "3. Ensure you're in the correct directory"]
    ++ (if negb all_deps_ok
        then [Said (newline ++ "Missing dependencies detected. Run:");
              Said "pip install -r requirements.txt"]
        else []).

(** [main()] of [test_installation.py] *)
Definition installation_main : script bool :=
  _ ← say (Said ("=== OCR Utility Installation Test ===" ++ newline));
  _ ← say (Said "Testing core dependencies:");
  all_deps_ok ← test_dependencies dependencies true;
  _ ← say (Said "");
  _ ← say (Said "Testing OCR utility:");
  ocr_ok ← test_ocr_utility;
  _ ← say (Said "");
  _ ← say_all (summary_lines all_deps_ok ocr_ok);
  mret (all_deps_ok && ocr_ok).

(** The script: [success = main(); sys.exit(0 if success else 1)]; its
    output and its exit status, which is 1 after an uncaught exception. *)
Definition installation_script : list check_line * Z :=
  match installation_main with
  | (out, inl success) => (out, if success then 0%Z else 1%Z)
  | (out, inr (SystemExit code)) => (out, code)
  | (out, inr (Uncaught _)) => (out, 1%Z)
  end.

End Installation.

(** ** Notions used in the statements on the processor and the front end *)

(** The engine invocations of a trace: language and image path, in order. *)
Definition invocations (tr : list event) : list (string * string) :=
  omap (λ ev, match ev with
              | EngineInvoked lang image_path => Some (lang, image_path)
              | _ => None
              end) tr.

(** The dictionary of [get_detailed_results] for a non-empty result. *)
Definition nonempty_result (w : world) (results : list Detection.t)
  : Dict.t dval :=
  let detected :=
    elements (list_to_set (map Detection.language results) : gset string) in
  let mean :=
    (py_sum (compensated_sum w) (map Detection.confidence results)
     / float_of_Z (Z.of_nat (length results)))%float in
  [ ("text_count", DInt (length results));
    ("languages_detected", DStrList detected);
    ("average_confidence", DFloat (round3 mean));
    ("results", DRecords results);
    ("results_by_language", DGroups (group_by_language results Dict.empty));
    ("summary",
     DStr ("Detected " ++ pretty (length results) ++ " text elements in "
           ++ pretty (length detected) ++ " languages with "
           ++ format_percent1 mean ++ " average confidence")) ].

(** An event of the processor (log line or engine invocation), and a line
    printed by the front end. *)
Definition is_effect (ev : cli_event) : bool :=
  match ev with Effect _ => true | _ => false end.

Definition is_print (ev : cli_event) : bool :=
  match ev with Print _ => true | _ => false end.

(** The literal text of a message. *)
Definition message_text (m : message) : string :=
  match m with
  | Text s | TextExn s _ | TextList s _ | TextVal s _ => s
  | Usage => ""
  end.

Fixpoint is_ascii (s : string) : bool :=
  match s with
  | EmptyString => true
  | String a rest => (byte a <? 128)%N && is_ascii rest
  end.

(** Sample data for the front end: the sample runtime with a drawing routine
    that succeeds and a console that takes every message; and the same with
    a console of ASCII encoding. *)
Definition sample_cli_world : cli_world :=
  {| runtime := sample_world;
     draw_sample := λ _, Ok tt;
     stdout := λ _, Ok tt |}.

Definition ascii_cli_world : cli_world :=
  {| runtime := sample_world;
     draw_sample := λ _, Ok tt;
     stdout := λ m, if is_ascii (message_text m) then Ok tt
                    else Raise UnicodeEncodeError |}.

(** A front end whose engines all report a number as text. *)
Definition number_text_cli_world : cli_world :=
  {| runtime :=
       {| str_of_object := str_of_object sample_world;
          float_of_str := float_of_str sample_world;
          compensated_sum := compensated_sum sample_world;
          negative_zero_sum := negative_zero_sum sample_world;
          np_pairwise_sum := np_pairwise_sum sample_world;
          np_geometry := np_geometry sample_world;
          PaddleOCR := λ _ _, Ok engine_number_text;
          fs := fs sample_world |};
     draw_sample := λ _, Ok tt;
     stdout := λ _, Ok tt |}.

(** A computation of the front end that raises nothing but what [print]
    raised. *)
Definition print_errors_only {A} (cw : cli_world) (m : cli A) : Prop :=
  ∀ e, snd m = Raise e → ∃ msg, stdout cw msg = Raise e.

(** An installation in which everything can be imported and the console
    takes every line, and one in which [cv2] fails to load its shared
    library. *)
Definition sound_env : python_env :=
  {| import_module := λ _, Imported;
     import_ocr_utils := OcrImported;
     console := λ _, Ok tt |}.

Definition broken_env : python_env :=
  {| import_module := λ name,
       if String.eqb name "cv2" then ImportRaises (EngineError 4)
       else if String.eqb name "PIL" then ImportFails
       else Imported;
     import_ocr_utils := OcrMissingDependency;
     console := λ _, Ok tt |}.

(** A computation of the script that calls [exit] with status 1 only. *)
Definition exits_with_one {A} (m : script A) : Prop :=
  ∀ t code, m = (t, inr (SystemExit code)) → code = 1%Z.

(** The line [test_import] prints for a module. *)
Definition report_line (env : python_env) (dep : string) : check_line :=
  match import_module env dep with
  | Imported => Said ("✓ " ++ dep ++ " imported successfully")
  | _ => SaidWithError ("✗ " ++ dep ++ " import failed: ")
  end.

(** Parsed arguments, with the defaults of the parser for the options that
    are not given here. *)
Definition sample_args (image_path lang : option string) (detailed : bool)
  : Args.t :=
  {| Args.image_path := image_path; Args.lang := lang;
     Args.detailed := detailed; Args.create_sample := false;
     Args.gpu := false; Args.languages := ["en"; "hi"] |}.

(** A runtime in which only the English engine can be built and the drawing
    routine fails. *)
Definition broken_cli_world : cli_world :=
  {| runtime :=
       {| str_of_object := str_of_object sample_world;
          float_of_str := float_of_str sample_world;
          compensated_sum := compensated_sum sample_world;
          negative_zero_sum := negative_zero_sum sample_world;
          np_pairwise_sum := np_pairwise_sum sample_world;
          np_geometry := np_geometry sample_world;
          PaddleOCR := λ lang _,
            if String.eqb lang "en" then Ok engine_en
            else Raise (EngineError 2);
          fs := fs sample_world |};
     draw_sample := λ _, Raise (EngineError 3);
     stdout := λ _, Ok tt |}.

(** ** Lemmas on the building blocks *)

(** [strip] runs to completion: the length of the string is enough fuel, so
    no space is left at either end. *)
Lemma space_prefix_shorter s rest :
  space_prefix s = Some rest → (String.length rest < String.length s)%nat.
Proof.
  unfold space_prefix. intros H.
  repeat (case_match; simplify_eq; simpl; try lia).
Qed.

Lemma space_suffix_rev_shorter s rest :
  space_suffix_rev s = Some rest → (String.length rest < String.length s)%nat.
Proof.
  unfold space_suffix_rev. intros H.
  repeat (case_match; simplify_eq; simpl; try lia).
Qed.

Lemma drop_while_done next fuel s :
  (∀ s rest, next s = Some rest → (String.length rest < String.length s)%nat) →
  (String.length s ≤ fuel)%nat →
  next (drop_while next fuel s) = None.
Proof.
  intros Hnext. revert s. induction fuel as [|fuel IH]; intros s Hlen; simpl.
  - destruct (next s) as [rest|] eqn:Hs; [|done].
    apply Hnext in Hs. lia.
  - destruct (next s) as [rest|] eqn:Hs; [|done].
    apply IH. apply Hnext in Hs. lia.
Qed.

Lemma rev_app_length s1 s2 :
  String.length (String.rev_app s1 s2)
  = (String.length s1 + String.length s2)%nat.
Proof.
  revert s2. induction s1 as [|a s1 IH]; intros s2; simpl; [done|].
  rewrite IH. simpl. lia.
Qed.

Lemma rev_app_rev_app s1 s2 s3 :
  String.rev_app (String.rev_app s1 s2) s3
  = String.rev_app s2 (String.app s1 s3).
Proof.
  revert s2 s3. induction s1 as [|a s1 IH]; intros s2 s3; simpl; [done|].
  by rewrite IH.
Qed.

Lemma rev_involutive s : String.rev (String.rev s) = s.
Proof.
  unfold String.rev. rewrite rev_app_rev_app. cbn [String.rev_app].
  induction s as [|a s IH]; [done|].
  change (String a (s +:+ "") = String a s). by rewrite IH.
Qed.

Lemma lstrip_done s : space_prefix (lstrip s) = None.
Proof. apply drop_while_done; [apply space_prefix_shorter|done]. Qed.

Lemma rstrip_done s : space_suffix_rev (String.rev (rstrip s)) = None.
Proof.
  unfold rstrip. rewrite rev_involutive.
  apply drop_while_done; [apply space_suffix_rev_shorter|].
  unfold String.rev. rewrite rev_app_length. simpl. lia.
Qed.

Example strip_spaces : strip "  a b  " = "a b".
Proof. reflexivity. Qed.

Example strip_tab_and_ideographic_space :
  strip (String "009" (String "227" (String "128" (String "128" "x")))) = "x".
Proof. reflexivity. Qed.

Example blank_text_is_dropped : nonblank (VStr "   ") = false.
Proof. reflexivity. Qed.

Example round3_tie_to_even :
  round3 0.0625 = 0.062%float ∧ round3 0.1875 = 0.188%float
  ∧ round3 2.675 = 2.675%float ∧ round3 (-0.0001) = (-0)%float.
Proof. repeat split; vm_compute; reflexivity. Qed.

Example format_percent1_sample :
  format_percent1 0.915 = "91.5%" ∧ format_fixed1 0.35 = "0.3"
  ∧ format_fixed1 (-0.04) = "-0.0".
Proof. repeat split; vm_compute; reflexivity. Qed.

Example float_of_int_overflow :
  float_of_int (10 ^ 400) = Raise OverflowError
  ∧ float_of_int (2 ^ 53 + 1) = Ok 9007199254740992%float.
Proof. split; vm_compute; reflexivity. Qed.

Example mean4_rounds :
  mean4 sample_world 0.1 0.3 0.3 0.1 = 0.19999999999999998%float.
Proof. vm_compute. reflexivity. Qed.

Example average_of_twenty_five :
  round3 (py_sum false (replicate 24 0.8125%float ++ [0.6875%float])
          / float_of_Z 25)%float
  = 0.807%float.
Proof. vm_compute. reflexivity. Qed.

Example wrap64_sample : wrap64 (2 ^ 62 - - 2 ^ 62) = (- 2 ^ 63)%Z.
Proof. reflexivity. Qed.

Example py_sum_versions :
  py_sum false [1e16; 1; -1e16]%float = 0%float
  ∧ py_sum true [1e16; 1; -1e16]%float = 1%float.
Proof. split; vm_compute; reflexivity. Qed.

Lemma io_bind_ok {A B} (t : list event) (a : A) (f : A → io B) :
  mbind f ((t, Ok a) : io A) = (t ++ (f a).1, (f a).2).
Proof. unfold mbind, io_bind. by destruct (f a). Qed.

Lemma io_ret_bind {A B} (a : A) (f : A → io B) : mret a ≫= f = f a.
Proof. unfold mret, io_ret, mbind, io_bind. by destruct (f a). Qed.

Lemma process_languages_spec w self image_path langs acc :
  process_languages w self image_path langs acc =
    (flat_map (language_trace w self image_path) langs,
     Ok (acc ++ flat_map (records_of w self image_path) langs)).
Proof.
  revert acc. induction langs as [|lang rest IH]; intros acc.
  - simpl. by rewrite app_nil_r.
  - simpl. unfold records_of, language_outcome, language_trace, Dict.getitem.
    destruct (Dict.get (ocr_models self) lang) as [model|]; simpl.
    + destruct (model image_path) as [raw|e]; simpl.
      * destruct (_process_ocr_results w raw lang) as [recs|e]; simpl;
          rewrite IH; simpl; by rewrite ?app_nil_r, <- ?app_assoc.
      * rewrite IH. simpl. by rewrite ?app_nil_r.
    + rewrite IH. simpl. by rewrite ?app_nil_r.
Qed.

Lemma process_image_valid w self image_path language :
  fs w image_path = Decodable →
  process_image w self image_path language =
    match selected_languages self language with
    | Ok langs =>
        (flat_map (language_trace w self image_path) langs,
         Ok (flat_map (records_of w self image_path) langs))
    | Raise e => ([], Raise e)
    end.
Proof.
  intros Hfs. unfold process_image, os_path_exists, _is_valid_image.
  rewrite Hfs. cbn [negb]. unfold selected_languages.
  destruct language as [l|].
  - destruct (str_bool l).
    + destruct (Dict.contains (ocr_models self) l); cbn [negb]; [|done].
      by rewrite io_ret_bind, process_languages_spec.
    + by rewrite io_ret_bind, process_languages_spec.
  - by rewrite io_ret_bind, process_languages_spec.
Qed.

Lemma process_image_invalid w self image_path language :
  fs w image_path ≠ Decodable →
  process_image w self image_path language =
    ([], Raise (match fs w image_path with
                | Missing => FileNotFoundError image_path
                | _ => InvalidImageError image_path
                end)).
Proof.
  intros Hfs. unfold process_image, os_path_exists, _is_valid_image.
  by destruct (fs w image_path).
Qed.

Lemma language_trace_logs_failure w self image_path lang e :
  language_outcome w self image_path lang = Raise e →
  ErrorProcessing lang e ∈ language_trace w self image_path lang.
Proof.
  unfold language_outcome, language_trace, Dict.getitem.
  destruct (Dict.get (ocr_models self) lang) as [model|]; simpl.
  - intros ->. set_solver.
  - intros [= <-]. set_solver.
Qed.

Lemma stripped_texts_str recs :
  Forall (λ r, is_str (Detection.text r)) recs →
  stripped_texts recs = Ok (nonblank_texts recs).
Proof.
  unfold nonblank_texts.
  induction 1 as [|r rest Hr _ IH]; [done|].
  simpl. destruct (Detection.text r) as [| | |s| |] eqn:Ht; try done.
  simpl. rewrite IH. simpl. rewrite filter_cons, Ht. simpl.
  destruct (str_bool (strip s)); simpl; by rewrite ?Ht.
Qed.

Lemma stripped_texts_not_str recs :
  Exists (λ r, is_str (Detection.text r) = false) recs →
  stripped_texts recs = Raise AttributeError.
Proof.
  induction 1 as [r rest Hr|r rest _ IH]; simpl.
  - by destruct (Detection.text r).
  - destruct (Detection.text r); simpl; by rewrite ?IH.
Qed.

(** [get_detailed_results], once [process_image] has returned. *)
Lemma get_detailed_results_ok w self image_path language tr results :
  process_image w self image_path language = (tr, Ok results) →
  ∃ d, get_detailed_results w self image_path language = (tr, Ok d)
       ∧ Dict.get d "results" = Some (DRecords results)
       ∧ (results = [] → d = empty_result)
       ∧ Dict.contains d "results_by_language" = negb (bool_decide (results = [])).
Proof.
  intros Hrun. unfold get_detailed_results. rewrite Hrun.
  destruct results as [|r rest].
  - eexists. repeat split; simpl; by rewrite ?app_nil_r.
  - eexists. split; [simpl; by rewrite app_nil_r|]. by repeat split.
Qed.

Lemma get_detailed_results_raise w self image_path language tr e :
  process_image w self image_path language = (tr, Raise e) →
  get_detailed_results w self image_path language = (tr, Raise e).
Proof. intros Hrun. unfold get_detailed_results. by rewrite Hrun. Qed.

Lemma extract_text_only_run w self image_path language tr r :
  process_image w self image_path language = (tr, r) →
  extract_text_only w self image_path language = (tr, r ≫= stripped_texts).
Proof.
  intros Hrun. unfold extract_text_only. rewrite Hrun.
  destruct r; simpl; by rewrite ?app_nil_r.
Qed.

Lemma process_image_cases w self image_path language :
  ∃ tr r, process_image w self image_path language = (tr, r).
Proof. destruct (process_image w self image_path language); eauto. Qed.

(** ** Failure isolation, validation and the two query views *)

(** C1 as stated fails for [extract_text_only]: its own [.strip()] runs
    outside the [try] of [process_image].  With one language whose engine
    raises and another whose engine reports the number 123 as text,
    [process_image] returns the record of the second and [extract_text_only]
    raises [AttributeError]. *)
Lemma extract_text_only_raises_on_a_number :
  ∃ tr r,
    fs sample_world "sample.jpg" = Decodable
    ∧ language_outcome sample_world
        (processor [("en", engine_failing); ("hi", engine_number_text)])
        "sample.jpg" "en" = Raise (EngineError 1)
    ∧ process_image sample_world
        (processor [("en", engine_failing); ("hi", engine_number_text)])
        "sample.jpg" None = (tr, Ok [r])
    ∧ Detection.text r = VInt 123
    ∧ extract_text_only sample_world
        (processor [("en", engine_failing); ("hi", engine_number_text)])
        "sample.jpg" None = (tr, Raise AttributeError).
Proof.
  eexists _, _. split; [reflexivity|]. split; [reflexivity|].
  split; [vm_compute; reflexivity|]. split; [reflexivity|].
  vm_compute. reflexivity.
Qed.

(** C1, amended. In a query over all configured languages on a valid image,
    [process_image] never raises: it returns the concatenation, in the order
    of the configured languages, of the normalised records of the languages
    whose engine invocation (and normalisation) succeeded; a language whose
    invocation raised contributes nothing and its failure is logged.  Hence
    [get_detailed_results] does not raise either; [extract_text_only] does
    not raise when the texts the engines reported are strings. *)
Theorem per_language_failure_is_isolated w self image_path :
  fs w image_path = Decodable →
  let run := process_image w self image_path None in
  let results := flat_map (records_of w self image_path) (languages self) in
  outcome run = Ok results
  ∧ (∀ lang e, lang ∈ languages self →
       language_outcome w self image_path lang = Raise e →
       records_of w self image_path lang = []
       ∧ ErrorProcessing lang e ∈ trace_of run)
  ∧ (∀ lang recs, language_outcome w self image_path lang = Ok recs →
       records_of w self image_path lang = recs)
  ∧ is_ok (outcome (get_detailed_results w self image_path None)) = true
  ∧ (Forall (λ r, is_str (Detection.text r)) results →
     outcome (extract_text_only w self image_path None)
       = Ok (nonblank_texts results)).
Proof.
  intros Hfs run results.
  pose proof (process_image_valid w self image_path None Hfs) as Hrun.
  simpl in Hrun. fold results in Hrun.
  split; [by subst run; rewrite Hrun|].
  split.
  { intros lang e Hin He. split; [unfold records_of; by rewrite He|].
    subst run. rewrite Hrun. simpl.
    apply list_elem_of_In, in_flat_map. exists lang.
    split; apply list_elem_of_In; [done|].
    by apply language_trace_logs_failure. }
  split; [intros lang recs Hok; unfold records_of; by rewrite Hok|].
  split.
  - destruct (get_detailed_results_ok _ _ _ _ _ _ Hrun) as (d & -> & _). done.
  - intros Hstr. rewrite (extract_text_only_run _ _ _ _ _ _ Hrun). simpl.
    by apply stripped_texts_str.
Qed.

Lemma per_language_failure_is_isolated_witness :
  let self := processor [("en", engine_en); ("ko", engine_failing);
                         ("hi", engine_hi)] in
  fs sample_world "sample.jpg" = Decodable
  ∧ outcome (process_image sample_world self "sample.jpg" None)
    = Ok (records_of sample_world self "sample.jpg" "en"
          ++ records_of sample_world self "sample.jpg" "hi")
  ∧ ErrorProcessing "ko" (EngineError 1)
    ∈ trace_of (process_image sample_world self "sample.jpg" None).
Proof.
  intros self.
  destruct (per_language_failure_is_isolated sample_world self "sample.jpg"
              eq_refl) as (Hres & Hfail & _).
  split; [reflexivity|]. split.
  - rewrite Hres. reflexivity.
  - apply (Hfail "ko" (EngineError 1)); [|reflexivity].
    apply list_elem_of_In. simpl. tauto.
Defined.

(** C2. When processing a valid image yields no detection record,
    [get_detailed_results] returns the canonical empty object
    [{text_count: 0, languages_detected: [], average_confidence: 0.0,
      results: [], summary: "No text detected"}] and [extract_text_only]
    returns the empty list. *)
Theorem no_detection_gives_canonical_empty w self image_path language :
  outcome (process_image w self image_path language) = Ok [] →
  outcome (get_detailed_results w self image_path language) = Ok empty_result
  ∧ outcome (extract_text_only w self image_path language) = Ok [].
Proof.
  destruct (process_image_cases w self image_path language) as (tr & r & Hrun).
  rewrite Hrun. simpl. intros ->. split.
  - destruct (get_detailed_results_ok _ _ _ _ _ _ Hrun) as (d & -> & _ & Hd & _).
    simpl. by rewrite Hd.
  - by rewrite (extract_text_only_run _ _ _ _ _ _ Hrun).
Qed.

Lemma no_detection_gives_canonical_empty_witness :
  outcome (process_image sample_world (processor [("en", engine_blank_page)])
             "sample.jpg" None) = Ok []
  ∧ outcome (get_detailed_results sample_world
               (processor [("en", engine_blank_page)]) "sample.jpg" None)
    = Ok empty_result
  ∧ outcome (extract_text_only sample_world
               (processor [("en", engine_blank_page)]) "sample.jpg" None)
    = Ok [].
Proof.
  split; [reflexivity|].
  apply (no_detection_gives_canonical_empty sample_world
           (processor [("en", engine_blank_page)]) "sample.jpg" None).
  reflexivity.
Defined.

(** C3. For any image path and optional language, [extract_text_only] and
    [get_detailed_results] log the same events and fail with the same
    error; when [get_detailed_results] returns, [extract_text_only] yields
    the [text] fields of exactly those records under its [results] key
    whose text is non-empty after trimming, in the same order (the texts
    being strings; a text that is not a string has no [strip] method and
    makes [extract_text_only] raise [AttributeError]). *)
Theorem extract_text_only_is_projection w self image_path language :
  match get_detailed_results w self image_path language with
  | (tr, Raise e) => extract_text_only w self image_path language = (tr, Raise e)
  | (tr, Ok d) =>
      ∃ recs, Dict.get d "results" = Some (DRecords recs)
        ∧ (Forall (λ r, is_str (Detection.text r)) recs →
           extract_text_only w self image_path language
             = (tr, Ok (nonblank_texts recs)))
        ∧ (Exists (λ r, is_str (Detection.text r) = false) recs →
           extract_text_only w self image_path language
             = (tr, Raise AttributeError))
  end.
Proof.
  destruct (process_image_cases w self image_path language) as (tr & r & Hrun).
  rewrite (extract_text_only_run _ _ _ _ _ _ Hrun).
  destruct r as [results|e].
  - destruct (get_detailed_results_ok _ _ _ _ _ _ Hrun) as (d & -> & Hd & _).
    exists results. split; [done|]. simpl. split; intros H.
    + by rewrite stripped_texts_str.
    + by rewrite stripped_texts_not_str.
  - by rewrite (get_detailed_results_raise _ _ _ _ _ _ Hrun).
Qed.

Lemma extract_text_only_is_projection_witness :
  ∃ tr recs,
    Forall (λ r, is_str (Detection.text r)) recs
    ∧ extract_text_only sample_world
        (processor [("en", engine_en); ("hi", engine_hi)]) "sample.jpg" None
      = (tr, Ok (nonblank_texts recs))
    ∧ nonblank_texts recs = [VStr "Hello"; VStr "नमस्ते"].
Proof.
  pose proof (extract_text_only_is_projection sample_world
                (processor [("en", engine_en); ("hi", engine_hi)])
                "sample.jpg" None) as H.
  destruct (get_detailed_results sample_world
              (processor [("en", engine_en); ("hi", engine_hi)])
              "sample.jpg" None) as [tr [d|e]] eqn:Hd;
    vm_compute in Hd; [|discriminate].
  injection Hd as <- <-. destruct H as (recs & Hget & Hstr & _).
  vm_compute in Hget. injection Hget as <-.
  eexists _, _.
  split; [|split; [apply Hstr; repeat constructor|vm_compute; reflexivity]].
  repeat constructor.
Defined.

(** C7. A path with nothing behind it makes [process_image], and with it
    [extract_text_only] and [get_detailed_results], fail with
    [FileNotFoundError]; a path that exists but holds no decodable image
    makes them fail with the invalid-image [ValueError], an exception of
    another class.  In both cases the trace is empty: no engine has been
    invoked. *)
Theorem unusable_path_fails_before_any_engine w self image_path language :
  (fs w image_path = Missing →
     process_image w self image_path language
       = ([], Raise (FileNotFoundError image_path))
     ∧ extract_text_only w self image_path language
       = ([], Raise (FileNotFoundError image_path))
     ∧ get_detailed_results w self image_path language
       = ([], Raise (FileNotFoundError image_path)))
  ∧ (fs w image_path = Undecodable →
     process_image w self image_path language
       = ([], Raise (InvalidImageError image_path))
     ∧ extract_text_only w self image_path language
       = ([], Raise (InvalidImageError image_path))
     ∧ get_detailed_results w self image_path language
       = ([], Raise (InvalidImageError image_path)))
  ∧ class_of (FileNotFoundError image_path)
    ≠ class_of (InvalidImageError image_path).
Proof.
  split; [|split; [|done]]; intros Hfs;
    (assert (fs w image_path ≠ Decodable) as Hne by (by rewrite Hfs));
    pose proof (process_image_invalid w self image_path language Hne) as Hrun;
    rewrite Hfs in Hrun;
    rewrite (extract_text_only_run _ _ _ _ _ _ Hrun),
            (get_detailed_results_raise _ _ _ _ _ _ Hrun); done.
Qed.

Lemma unusable_path_fails_before_any_engine_witness :
  fs sample_world "nowhere.png" = Missing
  ∧ fs sample_world "notes.txt" = Undecodable
  ∧ process_image sample_world (processor [("en", engine_en)]) "nowhere.png"
      None = ([], Raise (FileNotFoundError "nowhere.png"))
  ∧ process_image sample_world (processor [("en", engine_en)]) "notes.txt"
      None = ([], Raise (InvalidImageError "notes.txt")).
Proof.
  split; [reflexivity|]. split; [reflexivity|]. split.
  - apply (unusable_path_fails_before_any_engine sample_world
             (processor [("en", engine_en)]) "nowhere.png" None).
    reflexivity.
  - apply (unusable_path_fails_before_any_engine sample_world
             (processor [("en", engine_en)]) "notes.txt" None).
    reflexivity.
Defined.

(** C8 as stated fails for the empty string: [if language:] treats it like
    an absent argument, so all configured languages are processed. *)
Lemma empty_language_selects_every_model :
  fs sample_world "sample.jpg" = Decodable
  ∧ Dict.contains (ocr_models (processor [("en", engine_en)])) "" = false
  ∧ is_ok (outcome (process_image sample_world (processor [("en", engine_en)])
                      "sample.jpg" (Some ""))) = true
  ∧ EngineInvoked "en" "sample.jpg"
    ∈ trace_of (process_image sample_world (processor [("en", engine_en)])
                  "sample.jpg" (Some "")).
Proof. repeat split. vm_compute. set_solver. Qed.

(** C8, amended. On a valid image, a non-empty explicit language that is
    not a key of the model registry makes [process_image], and with it
    [extract_text_only] and [get_detailed_results], fail with the
    language-not-initialized [ValueError], whose payload is the list of the
    registry's keys; the trace is empty, so no engine has been invoked. *)
Theorem unknown_language_is_reported w self image_path l :
  fs w image_path = Decodable →
  l ≠ "" →
  Dict.contains (ocr_models self) l = false →
  process_image w self image_path (Some l)
    = ([], Raise (LanguageNotInitialized l (Dict.keys (ocr_models self))))
  ∧ extract_text_only w self image_path (Some l)
    = ([], Raise (LanguageNotInitialized l (Dict.keys (ocr_models self))))
  ∧ get_detailed_results w self image_path (Some l)
    = ([], Raise (LanguageNotInitialized l (Dict.keys (ocr_models self)))).
Proof.
  intros Hfs Hl Hkey.
  pose proof (process_image_valid w self image_path (Some l) Hfs) as Hrun.
  simpl in Hrun. rewrite Hkey in Hrun.
  assert (str_bool l = true) as Htrue by (by destruct l).
  rewrite Htrue in Hrun.
  rewrite (extract_text_only_run _ _ _ _ _ _ Hrun),
          (get_detailed_results_raise _ _ _ _ _ _ Hrun). done.
Qed.

Lemma unknown_language_is_reported_witness :
  fs sample_world "sample.jpg" = Decodable
  ∧ "fr" ≠ ""
  ∧ Dict.contains
      (ocr_models (processor [("en", engine_en); ("hi", engine_hi)])) "fr"
    = false
  ∧ process_image sample_world
      (processor [("en", engine_en); ("hi", engine_hi)]) "sample.jpg"
      (Some "fr")
    = ([], Raise (LanguageNotInitialized "fr" ["en"; "hi"])).
Proof.
  split; [reflexivity|]. split; [discriminate|]. split; [reflexivity|].
  apply (unknown_language_is_reported sample_world
           (processor [("en", engine_en); ("hi", engine_hi)]) "sample.jpg"
           "fr"); [reflexivity|discriminate|reflexivity].
Defined.

(** C10. The dictionary returned by [get_detailed_results] has the key
    [results_by_language] exactly when [process_image] produced at least one
    record; the canonical empty result has no such key. *)
Theorem results_by_language_key_iff_records w self image_path language tr d :
  get_detailed_results w self image_path language = (tr, Ok d) →
  ∃ results,
    process_image w self image_path language = (tr, Ok results)
    ∧ (Dict.contains d "results_by_language" = true ↔ results ≠ [])
    ∧ Dict.contains empty_result "results_by_language" = false.
Proof.
  intros Hd.
  destruct (process_image_cases w self image_path language) as (tr' & r & Hrun).
  destruct r as [results|e].
  - destruct (get_detailed_results_ok _ _ _ _ _ _ Hrun) as (d' & Hd' & _ & _ & Hk).
    rewrite Hd in Hd'. injection Hd' as -> ->.
    exists results. split; [done|]. split; [|done].
    rewrite Hk. destruct results; simpl; split; done.
  - rewrite (get_detailed_results_raise _ _ _ _ _ _ Hrun) in Hd. done.
Qed.

Lemma results_by_language_key_iff_records_witness :
  ∃ tr d,
    get_detailed_results sample_world (processor [("en", engine_en)])
      "sample.jpg" None = (tr, Ok d)
    ∧ ∃ results,
        process_image sample_world (processor [("en", engine_en)])
          "sample.jpg" None = (tr, Ok results)
        ∧ (Dict.contains d "results_by_language" = true ↔ results ≠ [])
        ∧ Dict.contains empty_result "results_by_language" = false.
Proof.
  eexists _, _. split; [vm_compute; reflexivity|].
  apply (results_by_language_key_iff_records sample_world
           (processor [("en", engine_en)]) "sample.jpg" None).
  vm_compute. reflexivity.
Defined.

(** ** The model registry built at construction *)

Lemma dict_keys_set {V} (d : Dict.t V) k v :
  Dict.keys (Dict.set d k v) =
    if Dict.contains d k then Dict.keys d else Dict.keys d ++ [k].
Proof.
  unfold Dict.contains, Dict.keys.
  induction d as [|[k' v'] d IH]; simpl; [done|].
  destruct (String.eqb_spec k k') as [->|Hne]; simpl; [done|].
  rewrite IH. by destruct (Dict.get d k).
Qed.

Lemma dict_contains_keys {V} (d : Dict.t V) k :
  Dict.contains d k = true ↔ k ∈ Dict.keys d.
Proof.
  unfold Dict.contains, Dict.keys.
  induction d as [|[k' v'] d IH]; simpl.
  - split; [done|]. by intros ?%elem_of_nil.
  - rewrite elem_of_cons. destruct (String.eqb_spec k k') as [->|Hne].
    + split; auto.
    + rewrite IH. intuition congruence.
Qed.

Lemma dict_get_set {V} (d : Dict.t V) k v k' :
  Dict.get (Dict.set d k v) k' =
    if String.eqb k' k then Some v else Dict.get d k'.
Proof.
  induction d as [|[k0 v0] d IH]; simpl.
  - done.
  - destruct (String.eqb_spec k k0) as [->|Hne]; simpl.
    + by destruct (String.eqb_spec k' k0).
    + rewrite IH. destruct (String.eqb_spec k' k0) as [->|Hne'];
        destruct (String.eqb_spec k0 k) as [->|?]; done.
Qed.

Lemma initialize_loop_keys w langs gpu models tr models' :
  initialize_loop w langs gpu models = (tr, Ok models') →
  ∀ l, l ∈ Dict.keys models' ↔ l ∈ Dict.keys models ∨ l ∈ langs.
Proof.
  revert models tr. induction langs as [|lang rest IH]; intros models tr; simpl.
  - intros [= _ ->] l. rewrite elem_of_nil. tauto.
  - destruct (PaddleOCR w lang gpu) as [model|e]; simpl; [|done].
    destruct (initialize_loop w rest gpu (Dict.set models lang model))
      as [tr' [m|e]] eqn:Hloop; simpl; [|done].
    intros [= _ ->] l. rewrite (IH _ _ Hloop l), dict_keys_set, elem_of_cons.
    destruct (Dict.contains models lang) eqn:Hc.
    + apply dict_contains_keys in Hc. intuition congruence.
    + rewrite elem_of_app, list_elem_of_singleton. tauto.
Qed.

(** A processor that was constructed has exactly its configured languages
    as the keys of its registry. *)
Lemma constructed_registry_keys w langs gpu tr self :
  __init__ w (Some langs) gpu = (tr, Ok self) →
  languages self = langs ∧ ∀ l, l ∈ Dict.keys (ocr_models self) ↔ l ∈ langs.
Proof.
  unfold __init__, _initialize_models. simpl.
  destruct (initialize_loop w langs gpu Dict.empty) as [tr' [m|e]] eqn:Hloop;
    simpl; [|done].
  intros [= _ <-]. simpl. split; [done|]. intros l.
  rewrite (initialize_loop_keys _ _ _ _ _ _ Hloop l). simpl.
  rewrite elem_of_nil. tauto.
Qed.

(** ** The normaliser *)

Lemma process_lines_spec w lines language acc :
  process_lines w lines language acc =
    rs ← normalised_lines w lines language; Ok (acc ++ rs).
Proof.
  revert acc. induction lines as [|line rest IH]; intros acc;
    cbn [process_lines normalised_lines].
  - simpl. by rewrite app_nil_r.
  - destruct (2 <=? length line)%nat; [|apply IH].
    destruct (line_record w line language) as [r|e]; simpl; [|done].
    rewrite IH.
    destruct (normalised_lines w rest language); simpl; [|done].
    by rewrite <- app_assoc.
Qed.

Lemma process_ocr_results_spec w ocr_result language :
  _process_ocr_results w ocr_result language =
    normalised_lines w (first_page_lines ocr_result) language.
Proof.
  destruct ocr_result as [[|[[|line lines]|] pages]|]; try done.
  unfold _process_ocr_results, first_page_lines.
  rewrite process_lines_spec.
  by destruct (normalised_lines w (line :: lines) language).
Qed.

Lemma normalised_lines_skip w before short after language :
  (length short < 2)%nat →
  normalised_lines w (before ++ short :: after) language =
    normalised_lines w (before ++ after) language.
Proof.
  intros Hshort.
  induction before as [|line rest IH]; cbn [app normalised_lines].
  - by destruct (Nat.leb_spec 2 (length short)); [lia|].
  - by rewrite IH.
Qed.

Lemma normalised_lines_elem w lines language recs r :
  normalised_lines w lines language = Ok recs →
  r ∈ recs →
  ∃ line, line ∈ lines ∧ (2 ≤ length line)%nat
          ∧ line_record w line language = Ok r.
Proof.
  revert recs. induction lines as [|line rest IH]; intros recs;
    cbn [normalised_lines].
  - intros [= <-] Hin. by apply elem_of_nil in Hin.
  - destruct (Nat.leb_spec 2 (length line)) as [Hlen|Hlen].
    + destruct (line_record w line language) as [r0|e] eqn:Hline; simpl; [|done].
      destruct (normalised_lines w rest language) as [rs|e]; simpl; [|done].
      intros [= <-] [->|Hin]%elem_of_cons.
      * exists line. split; [left|done].
      * destruct (IH rs eq_refl Hin) as (l & Hl & ?). exists l.
        split; [by right|done].
    + intros Hrs Hin. destruct (IH recs Hrs Hin) as (l & Hl & ?). exists l.
      split; [by right|done].
Qed.

Lemma normalised_lines_Forall2 w lines language recs :
  normalised_lines w lines language = Ok recs ↔
  Forall2 (λ line r, line_record w line language = Ok r)
          (filter (λ line, (2 ≤ length line)%nat) lines) recs.
Proof.
  revert recs. induction lines as [|line rest IH]; intros recs;
    cbn [normalised_lines].
  - split; [intros [= <-]; constructor|]. by intros ->%Forall2_nil_inv_l.
  - rewrite filter_cons.
    destruct (Nat.leb_spec 2 (length line)) as [Hlen|Hlen].
    + rewrite decide_True by done.
      destruct (line_record w line language) as [r|e] eqn:Hline; simpl.
      * destruct (normalised_lines w rest language) as [rs|e] eqn:Hrest; simpl.
        -- split.
           ++ intros [= <-]. constructor; [done|]. by apply IH.
           ++ intros (r' & rs' & Hr' & Hrs' & ->)%Forall2_cons_inv_l.
              apply IH in Hrs'. congruence.
        -- split; [done|].
           intros (r' & rs' & _ & Hrs' & ->)%Forall2_cons_inv_l.
           by apply IH in Hrs'.
      * split; [done|].
        intros (r' & rs' & Hr' & _)%Forall2_cons_inv_l. congruence.
    + rewrite decide_False by lia. apply IH.
Qed.

(** ** Facts on binary64

    Read off the specification of the primitive floats ([SpecFloat]) through
    the axioms that tie the primitive operations to it. *)

Lemma shr_1_nonneg mrs : (0 <= shr_m mrs)%Z → (0 <= shr_m (shr_1 mrs))%Z.
Proof. destruct mrs as [[|[p|p|]|p] r s]; simpl; lia. Qed.

Lemma iter_pos_shr_1_nonneg n mrs :
  (0 <= shr_m mrs)%Z → (0 <= shr_m (SpecFloat.iter_pos shr_1 n mrs))%Z.
Proof.
  revert mrs. induction n as [n IH|n IH|]; intros mrs H; simpl.
  - apply IH, IH. by apply shr_1_nonneg.
  - by apply IH, IH.
  - by apply shr_1_nonneg.
Qed.

Lemma shr_fexp_nonneg m e l :
  (0 <= m)%Z → (0 <= shr_m (shr_fexp prec emax m e l).1)%Z.
Proof.
  intros H. unfold shr_fexp, shr.
  assert (0 <= shr_m (shr_record_of_loc m l))%Z as H'
    by (by destruct l as [|[]]).
  destruct (_ - e)%Z; simpl; [done| |done].
  by apply iter_pos_shr_1_nonneg.
Qed.

Lemma round_nearest_even_nonneg m l :
  (0 <= m)%Z → (0 <= round_nearest_even m l)%Z.
Proof. intros H. destruct l as [|[]]; simpl; [done| |done|lia]. destruct (Z.even m); lia. Qed.

Lemma binary_round_aux_nonneg m e l :
  (0 <= m)%Z → sf_nonneg (binary_round_aux prec emax false m e l).
Proof.
  intros H. unfold binary_round_aux.
  pose proof (shr_fexp_nonneg m e l H) as H1.
  destruct (shr_fexp prec emax m e l) as [mrs' e']. simpl in H1.
  pose proof (shr_fexp_nonneg _ e' loc_Exact
                (round_nearest_even_nonneg _ (loc_of_shr_record mrs') H1)) as H2.
  destruct (shr_fexp prec emax _ e' loc_Exact) as [mrs'' e'']. simpl in H2.
  destruct (shr_m mrs''); [done| |lia].
  by destruct (_ <=? _)%Z.
Qed.

Lemma binary_normalize_nonneg m e :
  (0 <= m)%Z → sf_nonneg (binary_normalize prec emax m e false).
Proof.
  intros H. destruct m as [|p|p]; [done| |lia]. unfold binary_normalize, binary_round.
  destruct (shl_align _ _ _) as [mz ez]. by apply binary_round_aux_nonneg.
Qed.

Lemma leb_zero_nonneg (x : float) :
  sf_nonneg (Prim2SF x) → (0 <=? x)%float = true.
Proof.
  intros H. rewrite FloatAxioms.leb_spec. change (Prim2SF 0) with (S754_zero false).
  by destruct (Prim2SF x) as [|[]| |[] ? ?].
Qed.

Lemma Prim2SF_float_of_Z z :
  (0 <= z < 2 ^ 63)%Z →
  Prim2SF (float_of_Z z) = binary_normalize prec emax z 0 false.
Proof.
  intros Hz. unfold float_of_Z.
  assert (Uint63Axioms.to_Z (Uint63Axioms.of_Z z) = z) as Hto.
  { rewrite Uint63.of_Z_spec. apply Z.mod_small. exact Hz. }
  rewrite <- Hto at 1. rewrite <- of_uint63_spec, SF2Prim_Prim2SF.
  by rewrite of_uint63_spec, Hto.
Qed.

Lemma float_of_Z_nonneg z :
  (0 <= z < 2 ^ 63)%Z → (0 <=? float_of_Z z)%float = true.
Proof.
  intros Hz. apply leb_zero_nonneg. rewrite Prim2SF_float_of_Z by done.
  apply binary_normalize_nonneg. lia.
Qed.

(** *** Order and subtraction of finite floats *)

Lemma is_finite_sf x : is_finite x = true → sf_finite (Prim2SF x).
Proof.
  unfold is_finite, is_nan, is_infinity. rewrite !FloatAxioms.eqb_spec, FloatAxioms.abs_spec.
  change (Prim2SF infinity) with (S754_infinity false).
  by destruct (Prim2SF x) as [|[]| |].
Qed.

Lemma is_finite_not_nan x : is_finite x = true → is_nan x = false.
Proof. unfold is_finite. by destruct (is_nan x). Qed.

Lemma leb_refl x : is_nan x = false → (x <=? x)%float = true.
Proof.
  unfold is_nan. rewrite FloatAxioms.leb_spec, FloatAxioms.eqb_spec. unfold SFleb, SFeqb.
  by destruct (SFcompare _ _) as [[]|].
Qed.

Lemma digits2_pos_bounds m :
  (2 ^ (Z.pos (digits2_pos m) - 1) <= Z.pos m < 2 ^ Z.pos (digits2_pos m))%Z.
Proof.
  induction m as [m IH|m IH|]; cbn [digits2_pos]; [| |simpl; lia].
  all: rewrite Pos2Z.inj_succ;
    replace (Z.succ (Z.pos (digits2_pos m)) - 1)%Z
      with (Z.succ (Z.pos (digits2_pos m) - 1)) by lia;
    rewrite !Z.pow_succ_r by lia; lia.
Qed.

Lemma shl_align_value m e e' :
  (e' <= e)%Z → Z.pos (shl_align m e e').1 = (Z.pos m * 2 ^ (e - e'))%Z.
Proof.
  intros H. unfold shl_align.
  destruct (e' - e)%Z as [|d|d] eqn:Hd; simpl; [|lia|].
  - replace (e - e')%Z with 0%Z by lia. lia.
  - replace (e - e')%Z with (Z.pos d) by lia.
    change (Pos.iter xO m d) with (shift_pos d m).
    rewrite shift_pos_correct. rewrite Z.mul_comm. f_equal.
Qed.

Lemma canonical_bounds m e :
  canonical_mantissa prec emax m e = true →
  (Z.pos m < 2 ^ 53)%Z
  ∧ (-1074 <= e)%Z
  ∧ (-1074 < e → 2 ^ 52 <= Z.pos m)%Z.
Proof.
  unfold canonical_mantissa, fexp, SpecFloat.emin. intros H%Z.eqb_eq.
  change prec with 53%Z in H. change emax with 1024%Z in H.
  pose proof (digits2_pos_bounds m) as [Hlo Hhi].
  assert (Z.pos (digits2_pos m) <= 53)%Z as Hd by lia.
  split; [|split; [lia|]].
  - eapply Z.lt_le_trans; [exact Hhi|]. apply Z.pow_le_mono_r; lia.
  - intros He. assert (Z.pos (digits2_pos m) = 53)%Z as Hd' by lia.
    rewrite Hd' in Hlo. exact Hlo.
Qed.

Lemma aligned_larger m1 e1 m2 e2 :
  canonical_mantissa prec emax m1 e1 = true →
  canonical_mantissa prec emax m2 e2 = true →
  (e2 < e1)%Z →
  (Z.pos m2 <= Z.pos m1 * 2 ^ (e1 - e2))%Z.
Proof.
  intros (_ & _ & H1)%canonical_bounds (H2 & He2 & _)%canonical_bounds He.
  specialize (H1 ltac:(lia)).
  assert (2 ^ 1 <= 2 ^ (e1 - e2))%Z as Hp by (apply Z.pow_le_mono_r; lia).
  change (2 ^ 1)%Z with 2%Z in Hp.
  change (2 ^ 53)%Z with (2 ^ 52 * 2)%Z in H2. nia.
Qed.

Lemma SFsub_nonneg x y :
  valid_binary x = true → valid_binary y = true →
  sf_finite x → sf_finite y →
  SFleb y x = true →
  sf_nonneg (SF64sub x y).
Proof.
  unfold SF64sub, SFleb.
  destruct x as [sx| | |sx mx ex], y as [sy| | |sy my ey]; try done.
  - intros _ _ _ _ _. simpl. by destruct sx, sy.
  - intros _ _ _ _. simpl. by destruct sy.
  - intros _ _ _ _. simpl. by destruct sx.
  - intros [Hx _]%andb_prop [Hy _]%andb_prop _ _ Hle.
    cbn [SFsub]. apply binary_normalize_nonneg.
    cbn [SFcompare] in Hle.
    destruct (Z.compare_spec ey ex) as [->|Hlt|Hgt].
    + rewrite Z.min_id.
      rewrite !shl_align_value, Z.sub_diag, !Z.mul_1_r by lia.
      rewrite Pos.compare_cont_spec in Hle. simpl in Hle.
      destruct sx, sy; simpl in *; try lia; try done.
      * destruct (Pos.compare_spec my mx); simpl in Hle; try done; lia.
      * destruct (Pos.compare_spec my mx); simpl in Hle; try done; lia.
    + rewrite Z.min_r by lia.
      rewrite !shl_align_value, Z.sub_diag, !Z.mul_1_r by lia.
      pose proof (aligned_larger mx ex my ey Hx Hy Hlt).
      destruct sx, sy; simpl in *; try lia; done.
    + rewrite Z.min_l by lia.
      rewrite !shl_align_value, Z.sub_diag, !Z.mul_1_r by lia.
      pose proof (aligned_larger my ey mx ex Hy Hx Hgt).
      destruct sx, sy; simpl in *; try lia; done.
Qed.

Lemma float_sub_nonneg (x y : float) :
  is_finite x = true → is_finite y = true →
  (y <=? x)%float = true →
  (0 <=? x - y)%float = true.
Proof.
  intros Hx%is_finite_sf Hy%is_finite_sf Hle.
  apply leb_zero_nonneg. rewrite FloatAxioms.sub_spec.
  apply SFsub_nonneg; auto using Prim2SF_valid.
  by rewrite <- FloatAxioms.leb_spec.
Qed.

Lemma foldl_min_max_finite (xs : list float) (lo hi : float) :
  is_finite lo = true → is_finite hi = true → (lo <=? hi)%float = true →
  Forall (λ x, is_finite x = true) xs →
  is_finite (foldl float_min lo xs) = true
  ∧ is_finite (foldl float_max hi xs) = true
  ∧ (foldl float_min lo xs <=? foldl float_max hi xs)%float = true.
Proof.
  intros Hlo Hhi Hle Hxs. revert lo hi Hlo Hhi Hle.
  induction Hxs as [|y xs Hy _ IH]; intros lo hi Hlo Hhi Hle; [done|].
  cbn [foldl]. unfold float_min at 2 4, float_max at 2 4.
  rewrite (is_finite_not_nan lo Hlo), (is_finite_not_nan hi Hhi), !orb_false_r.
  destruct (lo <=? y)%float eqn:H1, (y <=? hi)%float eqn:H2;
    apply IH; auto using leb_refl, is_finite_not_nan.
Qed.

(** ** The normaliser on polygons of integers and of floats *)

Lemma line_record_inv w line language r :
  line_record w line language = Ok r →
  Detection.text r = (text_and_confidence w (nth 1 line VNone)).1
  ∧ py_float w (reported_confidence w line) = Ok (Detection.confidence r)
  ∧ Detection.language r = language
  ∧ Detection.bbox r = nth 0 line VNone
  ∧ geometry w (nth 0 line VNone)
    = Ok (Detection.center r, Detection.dimensions r).
Proof.
  unfold line_record, reported_confidence.
  destruct (text_and_confidence w (nth 1 line VNone)) as [t c].
  destruct (geometry w (nth 0 line VNone)) as [[center dims]|]; simpl; [|done].
  destruct (py_float w c) as [x|]; simpl; [|done].
  by intros [= <-].
Qed.

Lemma mapM_as_row_points (points : list (number * number)) :
  mapM as_row (map (λ p, VList [number_value p.1; number_value p.2]) points)
  = Some (map (λ p, [p.1; p.2]) points).
Proof.
  induction points as [|[[] []] rest IH]; [done|..]; cbn; by rewrite IH.
Qed.

Lemma same_length_points (points : list (number * number)) :
  same_length (map (λ p, [p.1; p.2]) points) = true.
Proof.
  destruct points as [|p rest]; [done|]. simpl. apply forallb_forall.
  by intros r (q & <- & _)%in_map_iff.
Qed.

Lemma mapM_as_int64_points (points : list (Z * Z)) :
  Forall (λ p, fits_int64 p.1 = true ∧ fits_int64 p.2 = true) points →
  mapM (mapM as_int64)
    (map (λ p : number * number, [p.1; p.2])
         (map (λ p, (NInt p.1, NInt p.2)) points))
  = Some (map (λ p, [p.1; p.2]) points).
Proof.
  induction 1 as [|[x y] rest [Hx Hy] _ IH]; [done|]. simpl in Hx, Hy.
  cbn. rewrite Hx, Hy. cbn. cbn in IH. by rewrite IH.
Qed.

Lemma mapM_as_float64_points (points : list (float * float)) :
  mapM (mapM as_float64)
    (map (λ p : number * number, [p.1; p.2])
         (map (λ p, (NFloat p.1, NFloat p.2)) points))
  = Some (map (λ p, [p.1; p.2]) points).
Proof.
  induction points as [|[x y] rest IH]; [done|]. cbn. cbn in IH. by rewrite IH.
Qed.

Lemma column_points {A} (points : list (A * A)) :
  column (map (λ p, [p.1; p.2]) points) 0 = Ok (map fst points)
  ∧ column (map (λ p, [p.1; p.2]) points) 1 = Ok (map snd points).
Proof.
  unfold column. split.
  - assert (mapM (λ r : list A, r !! 0%nat) (map (λ p, [p.1; p.2]) points)
            = Some (map fst points)) as ->; [|done].
    induction points as [|p rest IH]; [done|]. cbn. cbn in IH. by rewrite IH.
  - assert (mapM (λ r : list A, r !! 1%nat) (map (λ p, [p.1; p.2]) points)
            = Some (map snd points)) as ->; [|done].
    induction points as [|p rest IH]; [done|]. cbn. cbn in IH. by rewrite IH.
Qed.

Lemma np_array_int_polygon (p : Z * Z) (rest : list (Z * Z)) :
  Forall (λ p, fits_int64 p.1 = true ∧ fits_int64 p.2 = true) (p :: rest) →
  np_array (int_polygon (p :: rest))
  = ArrInt (map (λ p, [p.1; p.2]) (p :: rest)).
Proof.
  intros Hfit. unfold int_polygon, polygon, np_array.
  rewrite mapM_as_row_points, same_length_points, mapM_as_int64_points by done.
  done.
Qed.

Lemma np_array_float_polygon (p : float * float) (rest : list (float * float)) :
  np_array (float_polygon (p :: rest))
  = ArrFloat (map (λ p, [p.1; p.2]) (p :: rest)).
Proof.
  unfold float_polygon, polygon, np_array.
  rewrite mapM_as_row_points, same_length_points, mapM_as_float64_points.
  done.
Qed.

(** The geometry of a polygon of integers that fit in an [int64]. *)
Lemma geometry_int_polygon w (p : Z * Z) (rest : list (Z * Z)) :
  Forall (λ p, fits_int64 p.1 = true ∧ fits_int64 p.2 = true) (p :: rest) →
  geometry w (int_polygon (p :: rest))
  = Ok ((np_mean_int w (map fst (p :: rest)),
         np_mean_int w (map snd (p :: rest))),
        (float_of_Z (wrap64 (foldl Z.max p.1 (map fst rest)
                             - foldl Z.min p.1 (map fst rest))),
         float_of_Z (wrap64 (foldl Z.max p.2 (map snd rest)
                             - foldl Z.min p.2 (map snd rest))))).
Proof.
  intros Hfit. unfold geometry. rewrite np_array_int_polygon by done.
  destruct (column_points (p :: rest)) as [-> ->]. done.
Qed.

(** The geometry of a polygon of floats. *)
Lemma geometry_float_polygon w (p : float * float)
    (rest : list (float * float)) :
  geometry w (float_polygon (p :: rest))
  = Ok ((np_mean w (map fst (p :: rest)), np_mean w (map snd (p :: rest))),
        ((foldl float_max p.1 (map fst rest)
          - foldl float_min p.1 (map fst rest))%float,
         (foldl float_max p.2 (map snd rest)
          - foldl float_min p.2 (map snd rest))%float)).
Proof.
  unfold geometry. rewrite np_array_float_polygon.
  destruct (column_points (p :: rest)) as [-> ->]. done.
Qed.

Lemma np_mean_4 w (a b c d : float) :
  np_mean w [a; b; c; d] = mean4 w a b c d.
Proof. done. Qed.

Lemma foldl_Z_min_max (xs : list Z) (lo hi L U : Z) :
  (L <= lo <= hi)%Z → (hi < U)%Z → Forall (λ x, L <= x < U)%Z xs →
  (L <= foldl Z.min lo xs <= foldl Z.max hi xs)%Z
  ∧ (foldl Z.max hi xs < U)%Z.
Proof.
  intros H1 H2 Hxs. revert lo hi H1 H2.
  induction Hxs as [|x xs Hx _ IH]; intros lo hi H1 H2; [done|].
  cbn [foldl]. apply IH; lia.
Qed.

Lemma wrap64_small z : (- 2 ^ 63 <= z < 2 ^ 63)%Z → wrap64 z = z.
Proof. intros H. unfold wrap64. rewrite Z.mod_small; lia. Qed.

(** The extent of integers of the half range, computed in [int64] and
    converted, is not negative. *)
Lemma int_extent_nonneg (x : Z) (xs : list Z) :
  Forall half_range (x :: xs) →
  (0 <=? float_of_Z (wrap64 (foldl Z.max x xs - foldl Z.min x xs)))%float
  = true.
Proof.
  intros [Hx Hxs]%Forall_cons. unfold half_range in *.
  destruct (foldl_Z_min_max xs x x (- 2 ^ 62) (2 ^ 62)) as [H1 H2];
    [lia|lia|done|].
  rewrite wrap64_small by lia. apply float_of_Z_nonneg. lia.
Qed.

Lemma float_extent_nonneg (x : float) (xs : list float) :
  Forall (λ x, is_finite x = true) (x :: xs) →
  (0 <=? foldl float_max x xs - foldl float_min x xs)%float = true.
Proof.
  intros [Hx Hxs]%Forall_cons.
  destruct (foldl_min_max_finite xs x x Hx Hx
              (leb_refl x (is_finite_not_nan x Hx)) Hxs) as (H1 & H2 & H3).
  by apply float_sub_nonneg.
Qed.

Lemma half_range_fits z : half_range z → fits_int64 z = true.
Proof.
  unfold half_range, fits_int64. intros H.
  apply andb_true_intro. split; [apply Z.leb_le|apply Z.ltb_lt]; lia.
Qed.




(** C6 as stated fails: the confidence is passed through unchanged, so an
    engine that reports 1.5 yields a record with confidence 1.5. *)
Lemma confidence_can_exceed_one :
  ∃ r, _process_ocr_results sample_world
         (Some [Some [[sample_box 0 0 8 2; VTuple [VStr "Hi"; VFloat 1.5]]]])
         "en" = Ok [r]
       ∧ Detection.confidence r = 1.5%float
       ∧ (Detection.confidence r <=? 1)%float = false.
Proof. eexists. repeat split; vm_compute; reflexivity. Qed.

(** C6, amended. The records produced from any raw engine output correspond,
    one to one and in order, to the lines of the first page that have at
    least two sub-fields.  The confidence of a record is the float value of
    the confidence reported for its own line (1.0 for a bare text), whatever
    that is.  Both components of its dimensions are non-negative when the
    polygon of the line is made of finite floats, and when it is made of
    integers of the half range of [int64], for which the differences do not
    wrap around. *)
Theorem record_confidence_and_dimensions w ocr_result language recs :
  _process_ocr_results w ocr_result language = Ok recs →
  Forall2
    (λ line r,
       py_float w (reported_confidence w line) = Ok (Detection.confidence r)
       ∧ (∀ points,
            nth 0 line VNone = float_polygon points →
            Forall (λ p, is_finite p.1 = true ∧ is_finite p.2 = true) points →
            (0 <=? (Detection.dimensions r).1)%float = true
            ∧ (0 <=? (Detection.dimensions r).2)%float = true)
       ∧ (∀ points,
            nth 0 line VNone = int_polygon points →
            Forall (λ p, half_range p.1 ∧ half_range p.2) points →
            (0 <=? (Detection.dimensions r).1)%float = true
            ∧ (0 <=? (Detection.dimensions r).2)%float = true))
    (filter (λ line, (2 ≤ length line)%nat) (first_page_lines ocr_result))
    recs.
Proof.
  rewrite process_ocr_results_spec, normalised_lines_Forall2.
  intros Hlines. eapply Forall2_impl; [exact Hlines|].
  clear Hlines. intros line r Hrec.
  destruct (line_record_inv _ _ _ _ Hrec) as (_ & Hconf & _ & _ & Hgeo).
  split; [done|]. split.
  - intros [|p rest] Hline Hfin; rewrite Hline in Hgeo; [done|].
    rewrite geometry_float_polygon in Hgeo. injection Hgeo as _ <-.
    cbn [fst snd]. split; apply float_extent_nonneg.
    + change (Forall (λ x, is_finite x = true) (map fst (p :: rest))).
      apply Forall_fmap. eapply Forall_impl; [exact Hfin|]. by intros ? [? ?].
    + change (Forall (λ x, is_finite x = true) (map snd (p :: rest))).
      apply Forall_fmap. eapply Forall_impl; [exact Hfin|]. by intros ? [? ?].
  - intros [|p rest] Hline Hhalf; rewrite Hline in Hgeo; [done|].
    rewrite geometry_int_polygon in Hgeo.
    + injection Hgeo as _ <-. cbn [fst snd]. split; apply int_extent_nonneg.
      * change (Forall half_range (map fst (p :: rest))).
        apply Forall_fmap. eapply Forall_impl; [exact Hhalf|].
        by intros ? [? ?].
      * change (Forall half_range (map snd (p :: rest))).
        apply Forall_fmap. eapply Forall_impl; [exact Hhalf|].
        by intros ? [? ?].
    + eapply Forall_impl; [exact Hhalf|].
      intros ? [? ?]. split; by apply half_range_fits.
Qed.

Lemma record_confidence_and_dimensions_witness :
  ∃ r, _process_ocr_results sample_world
         (Some [Some [[VStr "stray"];
                      [float_polygon [(24.5, 36); (210, 36); (210, 71.5);
                                      (24.5, 71.5)]%float;
                       VTuple [VStr "Hi"; VFloat 0.5]]]])
         "en" = Ok [r]
       ∧ Detection.confidence r = 0.5%float
       ∧ (0 <=? (Detection.dimensions r).1)%float = true
       ∧ (0 <=? (Detection.dimensions r).2)%float = true.
Proof.
  eexists. split; [vm_compute; reflexivity|].
  pose proof (record_confidence_and_dimensions sample_world
                (Some [Some [[VStr "stray"];
                             [float_polygon [(24.5, 36); (210, 36);
                                             (210, 71.5); (24.5, 71.5)]%float;
                              VTuple [VStr "Hi"; VFloat 0.5]]]])
                "en" _ ltac:(vm_compute; reflexivity)) as H.
  apply Forall2_cons_1 in H as [(_ & Hfloat & _) _].
  split; [reflexivity|].
  apply (Hfloat [(24.5, 36); (210, 36); (210, 71.5); (24.5, 71.5)]%float);
    [reflexivity|].
  repeat constructor.
Defined.

(** C9. A raw result that is [None] or empty, or whose first page is [None]
    or empty, is normalised into the empty list.  A line with fewer than two
    sub-fields is skipped: the result is that of the same page without the
    line; and the other lines are still normalised: when each line of at
    least two sub-fields yields a record, the result is the list of these
    records, in the order of the lines. *)
Theorem empty_and_short_inputs_are_tolerated w language :
  _process_ocr_results w None language = Ok []
  ∧ _process_ocr_results w (Some []) language = Ok []
  ∧ (∀ pages, _process_ocr_results w (Some (None :: pages)) language = Ok [])
  ∧ (∀ pages, _process_ocr_results w (Some (Some [] :: pages)) language = Ok [])
  ∧ (∀ before short after pages,
       (length short < 2)%nat →
       _process_ocr_results w (Some (Some (before ++ short :: after) :: pages))
         language
       = _process_ocr_results w (Some (Some (before ++ after) :: pages))
           language)
  ∧ (∀ lines pages recs,
       Forall2 (λ line r, line_record w line language = Ok r)
               (filter (λ line, (2 ≤ length line)%nat) lines) recs →
       _process_ocr_results w (Some (Some lines :: pages)) language
       = Ok recs).
Proof.
  split; [done|]. split; [done|]. split; [done|]. split; [done|]. split.
  - intros before short after pages Hshort.
    rewrite !process_ocr_results_spec. cbn [first_page_lines].
    by apply normalised_lines_skip.
  - intros lines pages recs Hrecs.
    rewrite process_ocr_results_spec. cbn [first_page_lines].
    by apply normalised_lines_Forall2.
Qed.

Lemma empty_and_short_inputs_are_tolerated_witness :
  ∃ r1 r2,
    (length [VStr "stray"] < 2)%nat
    ∧ _process_ocr_results sample_world
        (Some [Some [[sample_box 0 0 10 4; VTuple [VStr "Hello"; VFloat 0.95]];
                     [VStr "stray"];
                     [sample_box 0 5 10 9; VStr "world"]]]) "en"
      = Ok [r1; r2]
    ∧ Detection.text r1 = VStr "Hello" ∧ Detection.text r2 = VStr "world"
    ∧ Detection.confidence r2 = 1%float.
Proof.
  eexists _, _. split; [simpl; lia|].
  destruct (empty_and_short_inputs_are_tolerated sample_world "en")
    as (_ & _ & _ & _ & _ & Hrest).
  split.
  - apply Hrest.
    rewrite filter_cons_True, filter_cons_False, filter_cons_True, filter_nil
      by (simpl; lia).
    repeat constructor; vm_compute; reflexivity.
  - repeat split; reflexivity.
Defined.

(** ** Statistics of the detailed view *)

Lemma group_by_language_get results d l :
  Dict.get (group_by_language results d) l =
    match Dict.get d l, filter (λ r, Detection.language r = l) results with
    | None, [] => None
    | None, rs => Some rs
    | Some old, rs => Some (old ++ rs)
    end.
Proof.
  revert d. induction results as [|r rest IH]; intros d.
  - simpl. destruct (Dict.get d l); by rewrite ?app_nil_r.
  - cbn [group_by_language]. rewrite IH, filter_cons, dict_get_set.
    unfold Dict.contains.
    destruct (String.eqb_spec l (Detection.language r)) as [->|Hne].
    + rewrite decide_True by done.
      destruct (Dict.get d (Detection.language r)) as [old|] eqn:Hd; cbn [negb].
      * rewrite Hd. simpl. by rewrite <- app_assoc.
      * rewrite dict_get_set, String.eqb_refl. simpl. done.
    + rewrite decide_False by done.
      destruct (Dict.get d (Detection.language r)) as [old|]; cbn [negb];
        [done|].
      rewrite dict_get_set.
      by destruct (String.eqb_spec l (Detection.language r)).
Qed.

Lemma languages_detected_spec (results : list Detection.t) l :
  l ∈ elements (list_to_set (map Detection.language results) : gset string)
  ↔ ∃ r, r ∈ results ∧ Detection.language r = l.
Proof.
  rewrite elem_of_elements, elem_of_list_to_set, list_elem_of_In, in_map_iff.
  split; intros (r & H1 & H2); exists r.
  - by rewrite list_elem_of_In.
  - by rewrite <- list_elem_of_In.
Qed.

(** C5 as stated fails on the average: it is rounded to three decimals.
    One record of confidence 1/16, whose mean is its confidence 0.0625, has
    the reported average 0.062. *)
Lemma average_confidence_is_rounded :
  ∃ tr d r,
    process_image sample_world (processor [("en", engine_sixteenth)])
      "sample.jpg" None = (tr, Ok [r])
    ∧ Detection.confidence r = 0.0625%float
    ∧ get_detailed_results sample_world (processor [("en", engine_sixteenth)])
        "sample.jpg" None = (tr, Ok d)
    ∧ Dict.get d "average_confidence" = Some (DFloat 0.062)
    ∧ (0.062 =? 0.0625)%float = false.
Proof.
  eexists _, _, _. split; [vm_compute; reflexivity|].
  split; [reflexivity|]. split; [vm_compute; reflexivity|].
  split; reflexivity.
Qed.

(** C5, amended. For a non-empty result set, [get_detailed_results] reports
    [text_count] equal to the number of records, [languages_detected] equal
    (as a duplicate-free list) to the set of languages of the records, not
    the requested ones, [average_confidence] equal to the mean of the
    confidences, computed in binary64 as [sum] divided by the count, rounded
    to three decimals, and [results_by_language] holding, for each detected
    language, the records of that language in their order, and no other
    key. *)
Theorem detailed_statistics w self image_path language tr results :
  process_image w self image_path language = (tr, Ok results) →
  results ≠ [] →
  ∃ langs groups summary,
    get_detailed_results w self image_path language
      = (tr, Ok [ ("text_count", DInt (length results));
                  ("languages_detected", DStrList langs);
                  ("average_confidence",
                   DFloat (round3
                     (py_sum (compensated_sum w)
                             (map Detection.confidence results)
                      / float_of_Z (Z.of_nat (length results)))%float));
                  ("results", DRecords results);
                  ("results_by_language", DGroups groups);
                  ("summary", DStr summary) ])
    ∧ NoDup langs
    ∧ (∀ l, l ∈ langs ↔ ∃ r, r ∈ results ∧ Detection.language r = l)
    ∧ (∀ l, Dict.get groups l =
            if bool_decide (l ∈ langs)
            then Some (filter (λ r, Detection.language r = l) results)
            else None).
Proof.
  intros Hrun Hne. unfold get_detailed_results. rewrite Hrun, io_bind_ok.
  destruct results as [|r0 rest]; [done|].
  cbv beta iota zeta delta [mret io_ret fst snd]. rewrite app_nil_r, length_map.
  set (results := r0 :: rest) in *.
  eexists _, _, _. split; [reflexivity|].
  split; [apply NoDup_elements|].
  split; [apply languages_detected_spec|].
  intros l. rewrite group_by_language_get. unfold Dict.empty. cbn [Dict.get].
  destruct (filter (λ r, Detection.language r = l) results) as [|r rs] eqn:Hf.
  - rewrite bool_decide_eq_false_2; [done|].
    rewrite languages_detected_spec. intros (r & Hr & Hl).
    assert (r ∈ filter (λ r, Detection.language r = l) results) as Hin
      by (by apply list_elem_of_filter).
    rewrite Hf in Hin. by apply elem_of_nil in Hin.
  - rewrite bool_decide_eq_true_2; [done|].
    rewrite languages_detected_spec. exists r.
    assert (r ∈ filter (λ r, Detection.language r = l) results) as Hin
      by (rewrite Hf; left).
    by apply list_elem_of_filter in Hin as [? ?].
Qed.

Lemma detailed_statistics_witness :
  ∃ tr results,
    process_image sample_world
      (processor [("en", engine_en); ("hi", engine_hi)]) "sample.jpg" None
      = (tr, Ok results)
    ∧ results ≠ []
    ∧ ∃ d,
        get_detailed_results sample_world
          (processor [("en", engine_en); ("hi", engine_hi)]) "sample.jpg" None
        = (tr, Ok d)
        ∧ Dict.get d "text_count" = Some (DInt 2)
        ∧ Dict.get d "average_confidence" = Some (DFloat 0.915).
Proof.
  eexists _, _. split; [vm_compute; reflexivity|]. split; [done|].
  edestruct (detailed_statistics sample_world
               (processor [("en", engine_en); ("hi", engine_hi)]) "sample.jpg"
               None) as (langs & groups & summary & Hd & _);
    [vm_compute; reflexivity|done|].
  eexists. split; [exact Hd|]. split; vm_compute; reflexivity.
Defined.

(** The two-language scenario: one English record of confidence 0.95 and
    one Hindi record of confidence 0.88. *)
Example two_language_scenario :
  ∃ tr d langs groups,
    get_detailed_results sample_world
      (processor [("en", engine_en); ("hi", engine_hi)]) "sample.jpg" None
    = (tr, Ok d)
    ∧ Dict.get d "text_count" = Some (DInt 2)
    ∧ Dict.get d "languages_detected" = Some (DStrList langs)
    ∧ langs ≡ₚ ["en"; "hi"]
    ∧ Dict.get d "average_confidence" = Some (DFloat 0.915)
    ∧ Dict.get d "results_by_language" = Some (DGroups groups)
    ∧ map (λ kv, (kv.1, length kv.2)) groups = [("en", 1%nat); ("hi", 1%nat)].
Proof.
  eexists _, _, _, _. split; [vm_compute; reflexivity|].
  repeat split; reflexivity.
Qed.

(** ** Construction of the processor *)

Lemma initialize_loop_ok w langs gpu models :
  (∀ l, l ∈ langs → is_ok (PaddleOCR w l gpu) = true) →
  ∃ models', initialize_loop w langs gpu models
             = (map InfoInitializing langs, Ok models').
Proof.
  revert models. induction langs as [|lang rest IH]; intros models Hok.
  - by exists models.
  - cbn [initialize_loop].
    pose proof (Hok lang ltac:(left)) as Hlang.
    destruct (PaddleOCR w lang gpu) as [model|e]; [|done].
    destruct (IH (Dict.set models lang model)) as (models' & Hloop).
    { intros l Hl. apply Hok. by right. }
    exists models'. simpl. by rewrite Hloop.
Qed.

Lemma initialize_loop_fails w before lang after gpu models e :
  (∀ l, l ∈ before → is_ok (PaddleOCR w l gpu) = true) →
  PaddleOCR w lang gpu = Raise e →
  initialize_loop w (before ++ lang :: after) gpu models
    = (map InfoInitializing (before ++ [lang]), Raise e).
Proof.
  revert models. induction before as [|l0 rest IH]; intros models Hok He.
  - simpl. by rewrite He.
  - cbn [app initialize_loop].
    pose proof (Hok l0 ltac:(left)) as Hl0.
    destruct (PaddleOCR w l0 gpu) as [model|e0]; [|done].
    simpl. rewrite IH; [done| |done].
    intros l Hl. apply Hok. by right.
Qed.

(** X1. Construction is all or nothing.  When the engine of every requested
    language can be built, [OCRProcessor(languages, use_gpu)] returns a
    processor, having logged one "Initializing" line per language, in the
    order of the list, and then the closing line.  When the engine of some
    language cannot be built while those before it can, the constructor logs
    the initialisations up to and including this language, logs the failure
    and re-raises the engine's exception: no later language is attempted and
    no processor is returned. *)
Theorem construction_is_all_or_nothing w langs gpu :
  ((∀ l, l ∈ langs → is_ok (PaddleOCR w l gpu) = true) →
   ∃ self, __init__ w (Some langs) gpu
           = (map InfoInitializing langs ++ [InfoAllInitialized], Ok self))
  ∧ (∀ before lang after e,
       langs = before ++ lang :: after →
       (∀ l, l ∈ before → is_ok (PaddleOCR w l gpu) = true) →
       PaddleOCR w lang gpu = Raise e →
       __init__ w (Some langs) gpu
       = (map InfoInitializing (before ++ [lang]) ++ [ErrorInitFailed e],
          Raise e)).
Proof.
  split.
  - intros Hok.
    destruct (initialize_loop_ok w langs gpu Dict.empty Hok) as (models & Hloop).
    eexists. unfold __init__, _initialize_models. simpl. rewrite Hloop.
    reflexivity.
  - intros before lang after e -> Hok He.
    unfold __init__, _initialize_models. simpl.
    by rewrite (initialize_loop_fails _ _ _ _ _ _ _ Hok He).
Qed.

Lemma construction_is_all_or_nothing_witness :
  (∀ l, l ∈ ["en"; "hi"] → is_ok (PaddleOCR sample_world l false) = true)
  ∧ ∃ self, __init__ sample_world (Some ["en"; "hi"]) false
            = ([InfoInitializing "en"; InfoInitializing "hi";
                InfoAllInitialized], Ok self).
Proof.
  assert (∀ l, l ∈ ["en"; "hi"] → is_ok (PaddleOCR sample_world l false) = true)
    as Hok.
  { intros l Hl. apply list_elem_of_In in Hl. simpl in Hl.
    destruct Hl as [<-|[<-|[]]]; reflexivity. }
  split; [exact Hok|].
  exact (proj1 (construction_is_all_or_nothing sample_world ["en"; "hi"] false)
           Hok).
Defined.

Lemma dict_set_NoDup {V} (d : Dict.t V) k v :
  NoDup (Dict.keys d) → NoDup (Dict.keys (Dict.set d k v)).
Proof.
  intros Hd. rewrite dict_keys_set.
  destruct (Dict.contains d k) eqn:Hc; [done|].
  apply NoDup_app. split; [done|]. split; [|apply NoDup_singleton].
  intros x Hx ->%list_elem_of_singleton.
  apply dict_contains_keys in Hx. congruence.
Qed.

Lemma initialize_loop_NoDup w langs gpu models tr models' :
  initialize_loop w langs gpu models = (tr, Ok models') →
  NoDup (Dict.keys models) → NoDup (Dict.keys models').
Proof.
  revert models tr. induction langs as [|lang rest IH]; intros models tr; simpl.
  - by intros [= _ ->].
  - destruct (PaddleOCR w lang gpu) as [model|e]; simpl; [|done].
    destruct (initialize_loop w rest gpu (Dict.set models lang model))
      as [tr' [m|e]] eqn:Hloop; simpl; [|done].
    intros [= _ ->] Hd. eapply IH; [done|]. by apply dict_set_NoDup.
Qed.

Lemma initialize_loop_get w langs gpu models tr models' :
  initialize_loop w langs gpu models = (tr, Ok models') →
  ∀ l, (l ∈ langs → ∃ model, PaddleOCR w l gpu = Ok model
                             ∧ Dict.get models' l = Some model)
       ∧ (l ∉ langs → Dict.get models' l = Dict.get models l).
Proof.
  revert models tr. induction langs as [|lang rest IH]; intros models tr; simpl.
  - intros [= _ ->] l. split; [by intros ?%elem_of_nil|done].
  - destruct (PaddleOCR w lang gpu) as [model|e] eqn:Hlang; simpl; [|done].
    destruct (initialize_loop w rest gpu (Dict.set models lang model))
      as [tr' [m|e]] eqn:Hloop; simpl; [|done].
    intros [= _ ->] l. destruct (IH _ _ Hloop l) as [Hin Hout].
    destruct (decide (l ∈ rest)) as [Hrest|Hrest].
    + split; [auto|]. intros Hl. exfalso. apply Hl. by right.
    + rewrite (Hout Hrest), dict_get_set. split.
      * intros [->|?]%elem_of_cons; [|done].
        exists model. by rewrite String.eqb_refl.
      * intros Hl. destruct (String.eqb_spec l lang) as [->|?]; [|done].
        exfalso. apply Hl. by left.
Qed.

(** X2. A constructed processor keeps the requested languages (English and
    Hindi when none are given) and the GPU flag.  Its registry has no
    duplicate key; it holds, for each requested language, the engine that
    [PaddleOCR] built for this language with this flag, and it holds nothing
    for any other language. *)
Theorem constructed_registry_lookup w languages_arg gpu tr self :
  __init__ w languages_arg gpu = (tr, Ok self) →
  languages self = default ["en"; "hi"] languages_arg
  ∧ use_gpu self = gpu
  ∧ NoDup (Dict.keys (ocr_models self))
  ∧ ∀ l, match Dict.get (ocr_models self) l with
         | Some model => l ∈ languages self ∧ PaddleOCR w l gpu = Ok model
         | None => l ∉ languages self
         end.
Proof.
  unfold __init__, _initialize_models. simpl.
  destruct (initialize_loop w (default ["en"; "hi"] languages_arg) gpu Dict.empty)
    as [tr' [m|e]] eqn:Hloop; simpl; [|done].
  intros [= _ <-]. simpl. split; [done|]. split; [done|].
  split; [eapply initialize_loop_NoDup; [done|constructor]|].
  intros l. destruct (initialize_loop_get _ _ _ _ _ _ Hloop l) as [Hin Hout].
  destruct (decide (l ∈ default ["en"; "hi"] languages_arg)) as [Hl|Hl].
  - destruct (Hin Hl) as (model & Hm & ->). done.
  - by rewrite (Hout Hl).
Qed.

Lemma constructed_registry_lookup_witness :
  ∃ tr self,
    __init__ sample_world None false = (tr, Ok self)
    ∧ languages self = ["en"; "hi"]
    ∧ Dict.keys (ocr_models self) = ["en"; "hi"].
Proof.
  eexists _, _. split; [vm_compute; reflexivity|].
  split; [|reflexivity].
  apply (constructed_registry_lookup sample_world None false _ _ eq_refl).
Defined.

Lemma invocations_app tr1 tr2 :
  invocations (tr1 ++ tr2) = invocations tr1 ++ invocations tr2.
Proof. apply omap_app. Qed.

Lemma invocations_language_trace w self image_path lang :
  invocations (language_trace w self image_path lang) =
    if Dict.contains (ocr_models self) lang then [(lang, image_path)] else [].
Proof.
  unfold language_trace, Dict.contains, invocations.
  destruct (Dict.get (ocr_models self) lang) as [model|]; [|done].
  simpl. by destruct (model image_path ≫= _).
Qed.

Lemma invocations_flat_map w self image_path langs :
  invocations (flat_map (language_trace w self image_path) langs) =
    map (λ lang, (lang, image_path))
        (filter (λ lang, Dict.contains (ocr_models self) lang = true) langs).
Proof.
  induction langs as [|lang rest IH]; [done|].
  cbn [flat_map]. rewrite invocations_app, invocations_language_trace, IH.
  rewrite filter_cons.
  destruct (Dict.contains (ocr_models self) lang); by simplify_option_eq.
Qed.

Lemma error_in_language_trace w self image_path lang lang' e :
  ErrorProcessing lang e ∈ language_trace w self image_path lang' ↔
  lang' = lang ∧ language_outcome w self image_path lang = Raise e.
Proof.
  unfold language_trace, language_outcome, Dict.getitem. split.
  - intros Hin. apply elem_of_cons in Hin as [?|Hin]; [done|].
    destruct (Dict.get (ocr_models self) lang') as [model|] eqn:Hget.
    + apply elem_of_cons in Hin as [?|Hin]; [done|].
      destruct (model image_path ≫= _) as [recs|e'] eqn:Hout;
        [by apply elem_of_nil in Hin|].
      apply list_elem_of_singleton in Hin as [= -> ->].
      rewrite Hget. done.
    + apply list_elem_of_singleton in Hin as [= -> ->]. by rewrite Hget.
  - intros [-> Hout]. right.
    destruct (Dict.get (ocr_models self) lang) as [model|]; simpl in *.
    + right. rewrite Hout. by left.
    + injection Hout as <-. by left.
Qed.

(** X3. On a readable image and with a valid selection of languages,
    [process_image] logs an error for a language with an exception exactly
    when this language is one of the selected ones and its engine invocation,
    or the normalisation of its output, raised this exception. *)
Theorem logged_errors_are_the_failures w self image_path language langs lang e :
  fs w image_path = Decodable →
  selected_languages self language = Ok langs →
  ErrorProcessing lang e ∈ trace_of (process_image w self image_path language)
  ↔ lang ∈ langs ∧ language_outcome w self image_path lang = Raise e.
Proof.
  intros Hfs Hsel. rewrite (process_image_valid _ _ _ _ Hfs), Hsel. simpl.
  rewrite list_elem_of_In, in_flat_map. split.
  - intros (lang' & Hin & Herr%list_elem_of_In).
    apply error_in_language_trace in Herr as [-> Hout].
    by rewrite list_elem_of_In.
  - intros [Hin Hout]. exists lang. rewrite <- !list_elem_of_In.
    split; [done|]. by apply error_in_language_trace.
Qed.

Lemma logged_errors_are_the_failures_witness :
  fs sample_world "sample.jpg" = Decodable
  ∧ selected_languages (processor [("en", engine_en); ("ko", engine_failing)])
      None = Ok ["en"; "ko"]
  ∧ ¬ ErrorProcessing "en" (EngineError 1)
      ∈ trace_of (process_image sample_world
                    (processor [("en", engine_en); ("ko", engine_failing)])
                    "sample.jpg" None).
Proof.
  split; [reflexivity|]. split; [reflexivity|].
  rewrite (logged_errors_are_the_failures sample_world
             (processor [("en", engine_en); ("ko", engine_failing)])
             "sample.jpg" None ["en"; "ko"] "en" (EngineError 1)
             eq_refl eq_refl).
  intros [_ Hout]. vm_compute in Hout. discriminate.
Defined.

Lemma filter_all {A} (P : A → Prop) `{∀ x, Decision (P x)} (l : list A) :
  (∀ x, x ∈ l → P x) → filter P l = l.
Proof.
  induction l as [|x l IH]; intros Hall; [done|].
  rewrite filter_cons_True by (apply Hall; left).
  f_equal. apply IH. intros y Hy. apply Hall. by right.
Qed.

(** X4. A processor constructed for the languages [langs] answers a query
    without language on a readable image by invoking the engine of every
    entry of [langs], in the order of the list and on the image path of the
    query, and invokes nothing else. *)
Theorem constructed_processor_invokes_every_engine w langs gpu tr0 self
    image_path :
  __init__ w (Some langs) gpu = (tr0, Ok self) →
  fs w image_path = Decodable →
  invocations (trace_of (process_image w self image_path None))
    = map (λ lang, (lang, image_path)) langs.
Proof.
  intros Hinit Hfs.
  destruct (constructed_registry_keys _ _ _ _ _ Hinit) as [Hlangs Hkeys].
  rewrite (process_image_valid _ _ _ _ Hfs). simpl.
  rewrite invocations_flat_map, Hlangs, filter_all; [done|].
  intros l Hl. by apply dict_contains_keys, Hkeys.
Qed.

Lemma constructed_processor_invokes_every_engine_witness :
  ∃ tr0 self,
    __init__ sample_world (Some ["en"; "ko"; "hi"]) false = (tr0, Ok self)
    ∧ fs sample_world "sample.jpg" = Decodable
    ∧ invocations (trace_of (process_image sample_world self "sample.jpg" None))
      = [("en", "sample.jpg"); ("ko", "sample.jpg"); ("hi", "sample.jpg")].
Proof.
  eexists _, _. split; [vm_compute; reflexivity|]. split; [reflexivity|].
  apply (constructed_processor_invokes_every_engine sample_world
           ["en"; "ko"; "hi"] false _ _ "sample.jpg" eq_refl eq_refl).
Defined.

(** X5. A query for one initialised language on a readable image returns the
    records of this language, invokes the engine of this language once and
    no other engine; when this invocation raises, the query logs the failure
    and returns the empty list. *)
Theorem single_language_query w self image_path l :
  fs w image_path = Decodable →
  l ≠ "" →
  Dict.contains (ocr_models self) l = true →
  outcome (process_image w self image_path (Some l))
    = Ok (records_of w self image_path l)
  ∧ invocations (trace_of (process_image w self image_path (Some l)))
    = [(l, image_path)]
  ∧ (∀ e, language_outcome w self image_path l = Raise e →
       process_image w self image_path (Some l)
       = ([InfoProcessing l; EngineInvoked l image_path; ErrorProcessing l e],
          Ok [])).
Proof.
  intros Hfs Hl Hkey.
  assert (str_bool l = true) as Htrue by (by destruct l).
  rewrite (process_image_valid _ _ _ _ Hfs). unfold selected_languages.
  rewrite Htrue, Hkey. unfold outcome, trace_of. cbn [flat_map fst snd].
  rewrite !app_nil_r. split; [done|]. split.
  - by rewrite invocations_language_trace, Hkey.
  - intros e He. unfold records_of. rewrite He. f_equal.
    unfold language_trace. unfold language_outcome, Dict.getitem in He.
    unfold Dict.contains in Hkey.
    destruct (Dict.get (ocr_models self) l) as [model|]; [|done].
    simpl in He. by rewrite He.
Qed.

Lemma single_language_query_witness :
  fs sample_world "sample.jpg" = Decodable
  ∧ "ko" ≠ ""
  ∧ Dict.contains (ocr_models (processor [("en", engine_en);
                                          ("ko", engine_failing)])) "ko" = true
  ∧ process_image sample_world
      (processor [("en", engine_en); ("ko", engine_failing)]) "sample.jpg"
      (Some "ko")
    = ([InfoProcessing "ko"; EngineInvoked "ko" "sample.jpg";
        ErrorProcessing "ko" (EngineError 1)], Ok []).
Proof.
  split; [reflexivity|]. split; [discriminate|]. split; [reflexivity|].
  apply (single_language_query sample_world
           (processor [("en", engine_en); ("ko", engine_failing)])
           "sample.jpg" "ko"); [reflexivity|discriminate|reflexivity|].
  reflexivity.
Defined.

Lemma records_of_language w self image_path lang r :
  r ∈ records_of w self image_path lang →
  Detection.language r = lang ∧ Dict.contains (ocr_models self) lang = true.
Proof.
  unfold records_of, language_outcome, Dict.getitem, Dict.contains.
  destruct (Dict.get (ocr_models self) lang) as [model|]; simpl;
    [|by intros ?%elem_of_nil].
  destruct (model image_path) as [raw|e]; simpl; [|by intros ?%elem_of_nil].
  destruct (_process_ocr_results w raw lang) as [recs|e] eqn:Hrecs;
    [|by intros ?%elem_of_nil].
  intros Hr. split; [|done].
  rewrite process_ocr_results_spec in Hrecs.
  destruct (normalised_lines_elem _ _ _ _ _ Hrecs Hr) as (line & _ & _ & Hline).
  by destruct (line_record_inv _ _ _ _ Hline) as (_ & _ & ? & _).
Qed.

Lemma result_record_language w self image_path language tr results r :
  process_image w self image_path language = (tr, Ok results) →
  r ∈ results →
  ∃ langs, selected_languages self language = Ok langs
           ∧ Detection.language r ∈ langs
           ∧ Dict.contains (ocr_models self) (Detection.language r) = true
           ∧ r ∈ records_of w self image_path (Detection.language r).
Proof.
  intros Hrun Hr.
  destruct (fs w image_path) eqn:Hfs;
    [rewrite process_image_invalid in Hrun by (by rewrite Hfs); done..|].
  rewrite (process_image_valid _ _ _ _ Hfs) in Hrun.
  destruct (selected_languages self language) as [langs|e]; [|done].
  injection Hrun as _ <-. exists langs. split; [done|].
  apply list_elem_of_In, in_flat_map in Hr as (lang & Hin & Hr).
  apply list_elem_of_In in Hin, Hr.
  destruct (records_of_language _ _ _ _ _ Hr) as [-> Hkey]. done.
Qed.

(** X6. Every record that [process_image] returns carries in its
    ['language'] field a language that the query selected and that the
    processor has an engine for, and is one of the records that the output of
    this language's engine normalises to. *)
Theorem records_carry_a_selected_language w self image_path language tr
    results r :
  process_image w self image_path language = (tr, Ok results) →
  r ∈ results →
  ∃ langs, selected_languages self language = Ok langs
           ∧ Detection.language r ∈ langs
           ∧ Dict.contains (ocr_models self) (Detection.language r) = true
           ∧ r ∈ records_of w self image_path (Detection.language r).
Proof. apply result_record_language. Qed.

Lemma records_carry_a_selected_language_witness :
  ∃ tr results r,
    process_image sample_world
      (processor [("en", engine_en); ("hi", engine_hi)]) "sample.jpg"
      (Some "hi") = (tr, Ok results)
    ∧ r ∈ results
    ∧ ∃ langs,
        selected_languages (processor [("en", engine_en); ("hi", engine_hi)])
          (Some "hi") = Ok langs
        ∧ Detection.language r ∈ langs
        ∧ Dict.contains
            (ocr_models (processor [("en", engine_en); ("hi", engine_hi)]))
            (Detection.language r) = true
        ∧ r ∈ records_of sample_world
                (processor [("en", engine_en); ("hi", engine_hi)])
                "sample.jpg" (Detection.language r).
Proof.
  eexists _, _, _. split; [vm_compute; reflexivity|].
  split; [left|].
  eapply (records_carry_a_selected_language sample_world
            (processor [("en", engine_en); ("hi", engine_hi)]) "sample.jpg"
            (Some "hi")); [vm_compute; reflexivity|left].
Defined.

(** ** The normaliser, line by line *)

(** X7. [_process_ocr_results] is all or nothing and keeps the order of the
    lines: it returns the records [recs] exactly when the lines of the first
    page that have at least two fields normalise, one by one and in order,
    to the records of [recs].  So one such line that fails to normalise makes
    the whole call raise, and lines of fewer than two fields are skipped. *)
Theorem normaliser_is_all_or_nothing w ocr_result language recs :
  _process_ocr_results w ocr_result language = Ok recs ↔
  Forall2 (λ line r, line_record w line language = Ok r)
          (filter (λ line, (2 ≤ length line)%nat)
                  (first_page_lines ocr_result)) recs.
Proof. rewrite process_ocr_results_spec. apply normalised_lines_Forall2. Qed.

(** ** The statistics, continued *)

Lemma get_detailed_results_nonempty w self image_path language tr results :
  process_image w self image_path language = (tr, Ok results) →
  results ≠ [] →
  get_detailed_results w self image_path language
  = (tr, Ok (nonempty_result w results)).
Proof.
  intros Hrun Hne. unfold get_detailed_results. rewrite Hrun, io_bind_ok.
  destruct results as [|r0 rest]; [done|].
  cbv beta iota zeta delta [mret io_ret fst snd].
  by rewrite app_nil_r, length_map.
Qed.

Lemma group_by_language_NoDup results d :
  NoDup (Dict.keys d) → NoDup (Dict.keys (group_by_language results d)).
Proof.
  revert d. induction results as [|r rest IH]; intros d Hd; [done|].
  cbn [group_by_language]. apply IH, dict_set_NoDup.
  destruct (negb _); [by apply dict_set_NoDup|done].
Qed.

Lemma dict_get_elem {V} (d : Dict.t V) k v :
  NoDup (Dict.keys d) → (k, v) ∈ d → Dict.get d k = Some v.
Proof.
  unfold Dict.keys. induction d as [|[k' v'] d IH]; simpl.
  - by intros _ ?%elem_of_nil.
  - intros [Hk' Hd]%NoDup_cons [[= -> ->]|Hin]%elem_of_cons.
    + by rewrite String.eqb_refl.
    + destruct (String.eqb_spec k k') as [->|?]; [|by apply IH].
      exfalso. apply Hk'. apply list_elem_of_In, in_map_iff.
      exists (k', v). by rewrite <- list_elem_of_In.
Qed.

Lemma dict_as_map {V} (d : Dict.t V) (f : string → V) :
  (∀ k v, (k, v) ∈ d → v = f k) → map snd d = map f (Dict.keys d).
Proof.
  unfold Dict.keys. induction d as [|[k v] d IH]; intros Hf; [done|].
  simpl. rewrite (Hf k v) by left. f_equal. apply IH.
  intros k' v' Hin. apply Hf. by right.
Qed.

(** Splitting a list by the distinct values of a key loses and duplicates
    nothing. *)
Lemma partition_by_keys {A} (key : A → string) (ks : list string) (l : list A) :
  NoDup ks →
  (∀ x, x ∈ l → key x ∈ ks) →
  concat (map (λ k, filter (λ x, key x = k) l) ks) ≡ₚ l.
Proof.
  revert l. induction ks as [|k ks IH]; intros l Hnd Hall.
  - destruct l as [|x l]; [done|].
    by specialize (Hall x ltac:(left)) as ?%elem_of_nil.
  - apply NoDup_cons in Hnd as [Hk Hnd]. cbn [map concat].
    etrans; [|apply (filter_app_complement (λ x, key x = k) l)].
    apply Permutation_app; [done|].
    rewrite <- (IH (filter (λ x, ¬ key x = k) l) Hnd).
    + apply Permutation_refl'. f_equal. apply map_ext_in.
      intros k' Hk'%list_elem_of_In. rewrite list_filter_filter.
      apply list_filter_iff. intros x. split; [|tauto].
      intros Hx. split; [done|]. intros Hx'. apply Hk. congruence.
    + intros x [Hx1 Hx2]%list_elem_of_filter.
      specialize (Hall x Hx2). apply elem_of_cons in Hall as [?|?]; done.
Qed.

(** X11. For a non-empty result, ['results_by_language'] partitions the
    records: its keys are distinct, the group of a key is not empty and holds
    exactly the records of this language, in the order of the results, and
    the groups together are a rearrangement of the results, so that no
    record is lost or duplicated. *)
Theorem groups_partition_the_results w self image_path language tr results :
  process_image w self image_path language = (tr, Ok results) →
  results ≠ [] →
  ∃ d groups,
    get_detailed_results w self image_path language = (tr, Ok d)
    ∧ Dict.get d "results_by_language" = Some (DGroups groups)
    ∧ NoDup (Dict.keys groups)
    ∧ (∀ k v, (k, v) ∈ groups →
         v ≠ [] ∧ v = filter (λ r, Detection.language r = k) results)
    ∧ concat (map snd groups) ≡ₚ results
    ∧ length (concat (map snd groups)) = length results.
Proof.
  intros Hrun Hne. eexists _, _.
  split; [by apply get_detailed_results_nonempty|]. split; [reflexivity|].
  set (groups := group_by_language results Dict.empty).
  assert (NoDup (Dict.keys groups)) as Hnd.
  { apply group_by_language_NoDup. constructor. }
  assert (∀ k v, (k, v) ∈ groups →
            v ≠ [] ∧ v = filter (λ r, Detection.language r = k) results) as Hgroups.
  { intros k v Hin. apply (dict_get_elem _ _ _ Hnd) in Hin.
    unfold groups in Hin. rewrite group_by_language_get in Hin.
    unfold Dict.empty in Hin. cbn [Dict.get] in Hin.
    destruct (filter _ results); by simplify_eq. }
  assert (concat (map snd groups) ≡ₚ results) as Hperm.
  { rewrite (dict_as_map groups
               (λ k, filter (λ r, Detection.language r = k) results))
      by (intros k v Hin; by apply Hgroups).
    apply partition_by_keys; [done|].
    intros r Hr. apply dict_contains_keys. unfold Dict.contains, groups.
    rewrite group_by_language_get. unfold Dict.empty. cbn [Dict.get].
    destruct (filter _ results) as [|r' rs] eqn:Hf; [|done].
    assert (r ∈ filter (λ r0, Detection.language r0 = Detection.language r)
                  results) as Hin by (by apply list_elem_of_filter).
    rewrite Hf in Hin. by apply elem_of_nil in Hin. }
  split; [done|]. split; [done|]. split; [done|].
  by rewrite Hperm.
Qed.

Lemma groups_partition_the_results_witness :
  ∃ tr results,
    process_image sample_world
      (processor [("en", engine_en); ("hi", engine_hi)]) "sample.jpg" None
      = (tr, Ok results)
    ∧ results ≠ []
    ∧ ∃ d groups,
        get_detailed_results sample_world
          (processor [("en", engine_en); ("hi", engine_hi)]) "sample.jpg" None
        = (tr, Ok d)
        ∧ Dict.get d "results_by_language" = Some (DGroups groups)
        ∧ NoDup (Dict.keys groups)
        ∧ (∀ k v, (k, v) ∈ groups →
             v ≠ [] ∧ v = filter (λ r, Detection.language r = k) results)
        ∧ concat (map snd groups) ≡ₚ results
        ∧ length (concat (map snd groups)) = length results.
Proof.
  eexists _, _. split; [vm_compute; reflexivity|]. split; [done|].
  apply (groups_partition_the_results sample_world
           (processor [("en", engine_en); ("hi", engine_hi)]) "sample.jpg"
           None); [vm_compute; reflexivity|done].
Defined.

(** X12. Whenever [get_detailed_results] returns, ['languages_detected']
    lists, without repetition, languages that the query selected and that the
    processor has an engine for, and it lists at most ['text_count'] of
    them. *)
Theorem detected_languages_were_selected w self image_path language tr d :
  get_detailed_results w self image_path language = (tr, Ok d) →
  ∃ detected count langs,
    Dict.get d "languages_detected" = Some (DStrList detected)
    ∧ Dict.get d "text_count" = Some (DInt count)
    ∧ selected_languages self language = Ok langs
    ∧ NoDup detected
    ∧ (length detected ≤ count)%nat
    ∧ ∀ l, l ∈ detected →
        l ∈ langs ∧ Dict.contains (ocr_models self) l = true.
Proof.
  intros Hd.
  destruct (process_image_cases w self image_path language) as (tr' & r & Hrun).
  destruct r as [results|e];
    [|by rewrite (get_detailed_results_raise _ _ _ _ _ _ Hrun) in Hd].
  assert (∃ langs, selected_languages self language = Ok langs) as [langs Hsel].
  { destruct (fs w image_path) eqn:Hfs;
      [rewrite process_image_invalid in Hrun by (by rewrite Hfs); done..|].
    rewrite (process_image_valid _ _ _ _ Hfs) in Hrun.
    destruct (selected_languages self language); [eauto|done]. }
  destruct (decide (results = [])) as [->|Hne].
  - destruct (get_detailed_results_ok _ _ _ _ _ _ Hrun) as (d' & Hd' & _ & He & _).
    rewrite Hd in Hd'. injection Hd' as _ <-. rewrite (He eq_refl).
    exists [], 0%nat, langs.
    split; [done|]. split; [done|]. split; [done|]. split; [constructor|].
    split; [done|]. by intros l ?%elem_of_nil.
  - rewrite (get_detailed_results_nonempty _ _ _ _ _ _ Hrun Hne) in Hd.
    assert (d = nonempty_result w results) as -> by congruence.
    eexists _, _, langs.
    split; [reflexivity|]. split; [reflexivity|]. split; [done|].
    split; [apply NoDup_elements|]. split.
    + etrans; [|apply Nat.eq_le_incl, (length_map Detection.language results)].
      apply submseteq_length, NoDup_submseteq; [apply NoDup_elements|].
      intros l (r & Hr & <-)%languages_detected_spec.
      apply list_elem_of_In, in_map. by apply list_elem_of_In.
    + intros l (r & Hr & <-)%languages_detected_spec.
      destruct (result_record_language _ _ _ _ _ _ _ Hrun Hr)
        as (langs' & Hsel' & Hin & Hkey & _).
      rewrite Hsel in Hsel'. by injection Hsel' as <-.
Qed.

Lemma detected_languages_were_selected_witness :
  ∃ tr d,
    get_detailed_results sample_world
      (processor [("en", engine_en); ("hi", engine_hi)]) "sample.jpg"
      (Some "hi") = (tr, Ok d)
    ∧ ∃ detected count langs,
        Dict.get d "languages_detected" = Some (DStrList detected)
        ∧ Dict.get d "text_count" = Some (DInt count)
        ∧ selected_languages
            (processor [("en", engine_en); ("hi", engine_hi)]) (Some "hi")
          = Ok langs
        ∧ NoDup detected
        ∧ (length detected ≤ count)%nat
        ∧ ∀ l, l ∈ detected →
            l ∈ langs
            ∧ Dict.contains
                (ocr_models (processor [("en", engine_en); ("hi", engine_hi)]))
                l = true.
Proof.
  eexists _, _. split; [vm_compute; reflexivity|].
  eapply (detected_languages_were_selected sample_world
            (processor [("en", engine_en); ("hi", engine_hi)]) "sample.jpg"
            (Some "hi")).
  vm_compute. reflexivity.
Defined.

(** ** The text view *)

Lemma stripped_texts_ok recs texts :
  stripped_texts recs = Ok texts →
  texts = nonblank_texts recs
  ∧ Forall (λ r, is_str (Detection.text r)) recs.
Proof.
  intros Hok.
  assert (Forall (λ r, is_str (Detection.text r)) recs) as Hstr.
  { apply Forall_forall. intros r Hr.
    destruct (is_str (Detection.text r)) eqn:Hs; [done|].
    rewrite stripped_texts_not_str in Hok; [done|].
    apply Exists_exists. eauto. }
  split; [|done]. rewrite (stripped_texts_str _ Hstr) in Hok. congruence.
Qed.

(** X13. When [extract_text_only] returns, [process_image] returned with the
    same log, and the texts are texts of its records, in the order of the
    records (a sublist of them): none of them is empty or made of white space
    only, and there are at most as many texts as records. *)
Theorem extracted_texts_are_nonblank w self image_path language tr texts :
  extract_text_only w self image_path language = (tr, Ok texts) →
  ∃ results,
    process_image w self image_path language = (tr, Ok results)
    ∧ Forall (λ t, nonblank t = true) texts
    ∧ texts `sublist_of` map Detection.text results
    ∧ (length texts ≤ length results)%nat.
Proof.
  intros Hx.
  destruct (process_image_cases w self image_path language) as (tr' & r & Hrun).
  rewrite (extract_text_only_run _ _ _ _ _ _ Hrun) in Hx.
  destruct r as [results|e]; [|done]. simpl in Hx.
  injection Hx as -> Hx. exists results. split; [done|].
  apply stripped_texts_ok in Hx as [-> _]. unfold nonblank_texts.
  split; [|split].
  - apply Forall_forall. intros t (r & <- & Hr%list_elem_of_In)%list_elem_of_In%in_map_iff.
    apply list_elem_of_filter in Hr as [Hr _]. by apply Is_true_true.
  - apply (fmap_sublist Detection.text), sublist_filter.
  - rewrite length_map. apply length_filter.
Qed.

Lemma extracted_texts_are_nonblank_witness :
  ∃ tr texts,
    extract_text_only sample_world
      (processor [("en", engine_en); ("hi", engine_hi)]) "sample.jpg" None
    = (tr, Ok texts)
    ∧ ∃ results,
        process_image sample_world
          (processor [("en", engine_en); ("hi", engine_hi)]) "sample.jpg" None
        = (tr, Ok results)
        ∧ Forall (λ t, nonblank t = true) texts
        ∧ texts `sublist_of` map Detection.text results
        ∧ (length texts ≤ length results)%nat.
Proof.
  eexists _, _. split; [vm_compute; reflexivity|].
  eapply (extracted_texts_are_nonblank sample_world
            (processor [("en", engine_en); ("hi", engine_hi)]) "sample.jpg"
            None).
  vm_compute. reflexivity.
Defined.

(** ** The command-line front end *)

Lemma cli_bind_ok {A B} (t : list cli_event) (a : A) (f : A → cli B) :
  mbind f ((t, Ok a) : cli A) = (t ++ (f a).1, (f a).2).
Proof. unfold mbind, cli_bind. by destruct (f a). Qed.

Lemma cli_print_bind {B} cw (m : message) (k : unit → cli B) :
  (∀ m, stdout cw m = Ok tt) →
  print cw m ≫= k = (Print m :: (k tt).1, (k tt).2).
Proof. intros Hprint. unfold print. by rewrite Hprint, cli_bind_ok. Qed.

(** *** What can escape *)

Lemma print_errors_only_print cw m : print_errors_only cw (print cw m).
Proof.
  unfold print. intros e. destruct (stdout cw m) as [[]|e'] eqn:Hm; [done|].
  intros [= <-]. eauto.
Qed.

Lemma print_errors_only_ret {A} cw (a : A) :
  print_errors_only cw (mret a : cli A).
Proof. by intros e. Qed.

Lemma print_errors_only_emit cw ev : print_errors_only cw (cli_emit ev).
Proof. by intros e. Qed.

Lemma print_errors_only_bind {A B} cw (m : cli A) (f : A → cli B) :
  print_errors_only cw m → (∀ a, print_errors_only cw (f a)) →
  print_errors_only cw (m ≫= f).
Proof.
  intros Hm Hf e. destruct m as [t [a|e']].
  - rewrite cli_bind_ok. apply Hf.
  - intros [= <-]. by apply Hm.
Qed.

Lemma print_errors_only_try {A} cw (m : cli A) (h : exn → cli A) :
  (∀ e, print_errors_only cw (h e)) → print_errors_only cw (cli_try m h).
Proof.
  intros Hh e. destruct m as [t [a|e']]; [done|]. simpl.
  specialize (Hh e' e). destruct (h e') as [t' r']. exact Hh.
Qed.

Lemma print_errors_only_main_construct cw args :
  print_errors_only cw (main_construct cw args).
Proof.
  apply print_errors_only_try. intros e.
  repeat (apply print_errors_only_bind; [apply print_errors_only_print|intros _]).
  apply print_errors_only_ret.
Qed.

Lemma print_errors_only_main_process cw args ocr image_path :
  print_errors_only cw (main_process cw args ocr image_path).
Proof. apply print_errors_only_try. intros e. apply print_errors_only_print. Qed.

Lemma print_errors_only_create_sample_image cw output_path :
  print_errors_only cw (create_sample_image cw output_path).
Proof.
  apply print_errors_only_try. intros e.
  apply print_errors_only_bind; [apply print_errors_only_emit|intros _].
  apply print_errors_only_ret.
Qed.

Lemma print_errors_only_main cw args : print_errors_only cw (main cw args).
Proof.
  unfold main. destruct (Args.create_sample args).
  - apply print_errors_only_bind; [apply print_errors_only_print|intros _].
    apply print_errors_only_bind;
      [apply print_errors_only_create_sample_image|intros []].
    + apply print_errors_only_bind; [|intros _]; apply print_errors_only_print.
    + apply print_errors_only_print.
  - destruct (Args.image_path args) as [[|c image_path]|].
    + apply print_errors_only_bind; [|intros _]; apply print_errors_only_print.
    + destruct (negb _).
      * apply print_errors_only_bind; [|intros _];
          apply print_errors_only_print.
      * apply print_errors_only_bind;
          [apply print_errors_only_main_construct|intros [ocr|]].
        -- apply print_errors_only_main_process.
        -- apply print_errors_only_ret.
    + apply print_errors_only_bind; [|intros _]; apply print_errors_only_print.
Qed.



(** *** With a console that takes every message *)

Lemma print_record_spec cw i r :
  (∀ msg, stdout cw msg = Ok tt) →
  ∃ t, print_record cw i r = (t, Ok tt) ∧ length t = 6%nat.
Proof.
  intros Hprint. unfold print_record. rewrite !cli_print_bind by done.
  unfold print. rewrite Hprint. cbn [fst snd].
  eexists. split; [reflexivity|done].
Qed.

Lemma print_records_spec cw i records :
  (∀ msg, stdout cw msg = Ok tt) →
  snd (print_records cw i records) = Ok tt
  ∧ length (fst (print_records cw i records)) = (6 * length records)%nat.
Proof.
  intros Hprint. revert i.
  induction records as [|r rest IH]; intros i; [done|].
  cbn [print_records].
  destruct (print_record_spec cw i r Hprint) as (t & -> & Ht).
  rewrite cli_bind_ok. cbn [fst snd]. rewrite length_app, Ht.
  destruct (IH (S i)) as [-> ->]. split; [done|]. simpl. lia.
Qed.

(** What [print_results_detailed] needs of its argument. *)
Lemma print_results_detailed_well_kinded cw d summary langs average records :
  (∀ msg, stdout cw msg = Ok tt) →
  Dict.get d "summary" = Some summary →
  Dict.get d "languages_detected" = Some (DStrList langs) →
  Dict.get d "average_confidence" = Some (DFloat average) →
  Dict.get d "results" = Some (DRecords records) →
  snd (print_results_detailed cw d) = Ok tt
  ∧ length (fst (print_results_detailed cw d))
    = match records with
      | [] => 5%nat
      | _ :: _ => (5 + 6 * length records)%nat
      end.
Proof.
  intros Hprint Hs Hl Ha Hr. unfold print_results_detailed, Dict.getitem.
  rewrite Hs, Hl, Ha, Hr.
  cbv beta iota delta [cli_lift join_of percent_of].
  repeat (rewrite ?(cli_print_bind cw) by done; rewrite ?cli_bind_ok;
          cbv beta iota delta [fst snd]).
  destruct records as [|r rest].
  { cbn [dval_bool]. unfold print. rewrite Hprint. done. }
  cbn [dval_bool].
  destruct (print_records_spec cw 1 (r :: rest) Hprint) as [Hok Hlen].
  destruct (print_records cw 1 (r :: rest)) as [t o].
  cbn [fst snd] in Hok, Hlen. subst o. split; [done|].
  cbn [app length] in *. lia.
Qed.



Lemma create_sample_image_spec cw output_path :
  create_sample_image cw output_path
  = match draw_sample cw output_path with
    | Ok _ => ([InfoSampleCreated output_path], Ok true)
    | Raise e => ([ErrorSampleFailed e], Ok false)
    end.
Proof.
  unfold create_sample_image, cli_lift.
  by destruct (draw_sample cw output_path) as [[]|e].
Qed.

Lemma main_construct_spec cw args :
  (∀ msg, stdout cw msg = Ok tt) →
  main_construct cw args
  = match __init__ (runtime cw) (Some (Args.languages args)) (Args.gpu args) with
    | (tr0, Ok ocr) =>
        (Print (TextList "Initializing OCR processor with languages: "
                  (Args.languages args))
         :: map Effect tr0
         ++ [Print (Text "✓ OCR processor initialized successfully!")],
         Ok (Some ocr))
    | (tr0, Raise e) =>
        (Print (TextList "Initializing OCR processor with languages: "
                  (Args.languages args))
         :: map Effect tr0
         ++ [Print (TextExn "✗ Failed to initialize OCR processor: " e);
             Print (Text "Please ensure all dependencies are installed: pip install -r requirements.txt")],
         Ok None)
    end.
Proof.
  intros Hprint. unfold main_construct. rewrite cli_print_bind by done.
  unfold cli_io.
  destruct (__init__ _ _ _) as [tr0 [ocr|e]]; cbn [fst snd].
  - rewrite cli_bind_ok, cli_print_bind by done.
    cbn [fst snd cli_try mret cli_ret]. reflexivity.
  - cbn [mbind cli_bind fst snd cli_try].
    rewrite !cli_print_bind by done. reflexivity.
Qed.

(** When the query raises, [main] prints the exception after the events of
    the query. *)
Lemma main_process_raise cw args ocr image_path tr e :
  (∀ msg, stdout cw msg = Ok tt) →
  (Args.detailed args = true
   ∧ get_detailed_results (runtime cw) ocr image_path (Args.lang args)
     = (tr, Raise e))
  ∨ (Args.detailed args = false
     ∧ extract_text_only (runtime cw) ocr image_path (Args.lang args)
       = (tr, Raise e)) →
  main_process cw args ocr image_path
  = (Print (Text (newline ++ "Processing image: " ++ image_path))
     :: map Effect tr ++ [Print (TextExn "✗ Error processing image: " e)],
     Ok tt).
Proof.
  intros Hprint Hq. unfold main_process. rewrite cli_print_bind by done.
  unfold cli_io.
  destruct Hq as [[-> ->]|[-> ->]]; cbn [fst snd mbind cli_bind cli_try];
    unfold print; by rewrite Hprint.
Qed.

Lemma cli_bind_trace {A B} (P : cli_event → Prop) (m : cli A) (f : A → cli B) :
  Forall P (fst m) → (∀ a, Forall P (fst (f a))) → Forall P (fst (m ≫= f)).
Proof.
  intros Hm Hf. destruct m as [t [a|e]]; [|done].
  rewrite cli_bind_ok. apply Forall_app. split; [done|apply Hf].
Qed.

(** X17. [main] constructs no processor and invokes no engine when it is
    asked to create the sample image: apart from its prints, the only event
    is the log line of [create_sample_image].  It only prints when no image
    path (or an empty one) is given, and when nothing exists at the image
    path. *)
Theorem main_without_image_starts_no_engine cw args :
  (Args.create_sample args = true →
   Forall (λ ev, is_effect ev = false) (fst (main cw args)))
  ∧ (Args.create_sample args = false →
     Args.image_path args = None
     ∨ Args.image_path args = Some ""
     ∨ (∃ image_path, Args.image_path args = Some image_path
                      ∧ fs (runtime cw) image_path = Missing) →
     Forall (λ ev, is_print ev = true) (fst (main cw args))).
Proof.
  assert (∀ m, Forall (λ ev, is_print ev = true) (fst (print cw m))) as Hp1.
  { intros m. unfold print. destruct (stdout cw m); repeat constructor. }
  assert (∀ m, Forall (λ ev, is_effect ev = false) (fst (print cw m))) as He1.
  { intros m. unfold print. destruct (stdout cw m); repeat constructor. }
  split.
  - intros Hcs. unfold main. rewrite Hcs.
    apply cli_bind_trace; [apply He1|intros _].
    apply cli_bind_trace.
    + rewrite create_sample_image_spec.
      destruct (draw_sample cw "sample.jpg"); repeat constructor.
    + intros []; [|apply He1].
      apply cli_bind_trace; [apply He1|intros _; apply He1].
  - intros Hcs Hcase. unfold main. rewrite Hcs.
    assert (∀ m1 m2, Forall (λ ev, is_print ev = true)
                       (fst (print cw m1 ≫= λ _, print cw m2))) as Hp2.
    { intros m1 m2. apply cli_bind_trace; [apply Hp1|intros _; apply Hp1]. }
    destruct Hcase as [->|[->|(p & -> & Hfs)]]; [apply Hp2..|].
    destruct p as [|c p]; [apply Hp2|].
    unfold os_path_exists. rewrite Hfs. apply Hp2.
Qed.

Lemma main_without_image_starts_no_engine_witness :
  fst (main sample_cli_world
         {| Args.image_path := None; Args.lang := None;
            Args.detailed := false; Args.create_sample := true;
            Args.gpu := false; Args.languages := ["en"; "hi"] |})
  = [Print (Text "Creating sample image...");
     InfoSampleCreated "sample.jpg";
     Print (Text "✓ Sample image 'sample.jpg' created successfully!");
     Print (Text "You can now test OCR with: python main.py sample.jpg")]
  ∧ Forall (λ ev, is_print ev = true)
      (fst (main sample_cli_world (sample_args (Some "nowhere.png") None false))).
Proof.
  split; [reflexivity|].
  apply (main_without_image_starts_no_engine sample_cli_world
           (sample_args (Some "nowhere.png") None false)); [reflexivity|].
  right. right. exists "nowhere.png". split; reflexivity.
Defined.

(** X18. When the processor is constructed but the query raises, be it in
    [process_image] (an undecodable file, a language without engine) or in
    the view itself (a text that is not a string, in [extract_text_only]),
    [main] prints, on a console that takes every message and in this order,
    the initialisation banner, the confirmation, the "Processing image" line
    and the error with the exception, interleaved with the events of the
    processor, and returns normally. *)
Theorem main_reports_query_errors cw args image_path tr0 ocr tr e :
  (∀ msg, stdout cw msg = Ok tt) →
  Args.create_sample args = false →
  Args.image_path args = Some image_path →
  image_path ≠ "" →
  fs (runtime cw) image_path ≠ Missing →
  __init__ (runtime cw) (Some (Args.languages args)) (Args.gpu args)
    = (tr0, Ok ocr) →
  (Args.detailed args = true
   ∧ get_detailed_results (runtime cw) ocr image_path (Args.lang args)
     = (tr, Raise e))
  ∨ (Args.detailed args = false
     ∧ extract_text_only (runtime cw) ocr image_path (Args.lang args)
       = (tr, Raise e)) →
  main cw args
  = (Print (TextList "Initializing OCR processor with languages: "
              (Args.languages args))
     :: map Effect tr0
     ++ [Print (Text "✓ OCR processor initialized successfully!");
         Print (Text (newline ++ "Processing image: " ++ image_path))]
     ++ map Effect tr
     ++ [Print (TextExn "✗ Error processing image: " e)],
     Ok tt).
Proof.
  intros Hprint Hcs Hpath Hne Hfs Hinit Hrun. unfold main. rewrite Hcs, Hpath.
  destruct image_path as [|c p]; [done|].
  unfold os_path_exists.
  destruct (fs (runtime cw) (String c p)) eqn:Hst; [done|..];
    cbn [negb]; rewrite main_construct_spec, Hinit, cli_bind_ok by done;
    rewrite (main_process_raise _ _ _ _ _ _ Hprint Hrun); cbn [fst snd];
    f_equal; simpl; by rewrite <- app_assoc.
Qed.

Lemma main_reports_query_errors_witness :
  ∃ tr0 ocr tr results,
    __init__ (runtime number_text_cli_world) (Some ["en"; "hi"]) false
    = (tr0, Ok ocr)
    ∧ process_image (runtime number_text_cli_world) ocr "sample.jpg" None
      = (tr, Ok results)
    ∧ extract_text_only (runtime number_text_cli_world) ocr "sample.jpg" None
      = (tr, Raise AttributeError)
    ∧ main number_text_cli_world (sample_args (Some "sample.jpg") None false)
      = (Print (TextList "Initializing OCR processor with languages: "
                  ["en"; "hi"])
         :: map Effect tr0
         ++ [Print (Text "✓ OCR processor initialized successfully!");
             Print (Text (newline ++ "Processing image: " ++ "sample.jpg"))]
         ++ map Effect tr
         ++ [Print (TextExn "✗ Error processing image: " AttributeError)],
         Ok tt).
Proof.
  eexists _, _, _, _. split; [vm_compute; reflexivity|].
  split; [vm_compute; reflexivity|]. split; [vm_compute; reflexivity|].
  eapply (main_reports_query_errors number_text_cli_world
            (sample_args (Some "sample.jpg") None false) "sample.jpg");
    [done|reflexivity|reflexivity|discriminate|discriminate
    |vm_compute; reflexivity|].
  right. split; [reflexivity|]. vm_compute. reflexivity.
Defined.

(** X19. When the construction of the processor raises, [main] prints, on a
    console that takes every message, the banner, the failure with the
    exception and the hint to install the dependencies, and returns: it does
    not go on to the query, and no engine has been invoked. *)
Theorem main_stops_when_construction_fails cw args image_path tr0 e :
  (∀ msg, stdout cw msg = Ok tt) →
  Args.create_sample args = false →
  Args.image_path args = Some image_path →
  image_path ≠ "" →
  fs (runtime cw) image_path ≠ Missing →
  __init__ (runtime cw) (Some (Args.languages args)) (Args.gpu args)
    = (tr0, Raise e) →
  main cw args
  = (Print (TextList "Initializing OCR processor with languages: "
              (Args.languages args))
     :: map Effect tr0
     ++ [Print (TextExn "✗ Failed to initialize OCR processor: " e);
         Print (Text "Please ensure all dependencies are installed: pip install -r requirements.txt")],
     Ok tt)
  ∧ Forall (λ ev, ∀ lang p, ev ≠ EngineInvoked lang p) tr0.
Proof.
  intros Hprint Hcs Hpath Hne Hfs Hinit. split.
  - unfold main. rewrite Hcs, Hpath.
    destruct image_path as [|c p]; [done|].
    unfold os_path_exists.
    destruct (fs (runtime cw) (String c p)) eqn:Hst; [done|..];
      cbn [negb]; rewrite main_construct_spec, Hinit, cli_bind_ok by done;
      cbn [fst snd mret cli_ret]; by rewrite app_nil_r.
  - revert Hinit. unfold __init__, _initialize_models. cbn [languages use_gpu ocr_models].
    generalize (@Dict.empty engine).
    cbn [default]. intros models Hinit.
    assert (∀ langs models tr r,
              initialize_loop (runtime cw) langs (Args.gpu args) models = (tr, r) →
              Forall (λ ev, ∀ lang p, ev ≠ EngineInvoked lang p) tr) as Hloop.
    { clear. induction langs as [|l rest IH]; intros models tr r; simpl.
      - intros [= <- _]. constructor.
      - destruct (PaddleOCR (runtime cw) l (Args.gpu args)) as [m|e]; simpl.
        + destruct (initialize_loop _ rest _ _) as [tr' r'] eqn:Hl.
          intros [= <- _]. constructor; [done|]. by eapply IH.
        + intros [= <- _]. repeat constructor. done. }
    destruct (initialize_loop _ _ _ models) as [tr1 [m|e1]] eqn:Hl;
      simpl in Hinit; [done|].
    injection Hinit as <- _. apply Forall_app. split; [by eapply Hloop|].
    repeat constructor. done.
Qed.

Lemma main_stops_when_construction_fails_witness :
  main broken_cli_world (sample_args (Some "sample.jpg") None false)
  = ([Print (TextList "Initializing OCR processor with languages: "
               ["en"; "hi"]);
      Effect (InfoInitializing "en"); Effect (InfoInitializing "hi");
      Effect (ErrorInitFailed (EngineError 2));
      Print (TextExn "✗ Failed to initialize OCR processor: " (EngineError 2));
      Print (Text "Please ensure all dependencies are installed: pip install -r requirements.txt")],
     Ok tt).
Proof.
  apply (main_stops_when_construction_fails broken_cli_world
           (sample_args (Some "sample.jpg") None false) "sample.jpg"
           [InfoInitializing "en"; InfoInitializing "hi";
            ErrorInitFailed (EngineError 2)] (EngineError 2));
    [done|reflexivity|reflexivity|discriminate|discriminate|reflexivity].
Defined.

(** ** The installation check *)

Lemma script_bind_ok {A B} (t : list check_line) (a : A) (f : A → script B) :
  mbind f ((t, inl a) : script A) = (t ++ (f a).1, (f a).2).
Proof. unfold mbind, script_bind. by destruct (f a). Qed.

Lemma script_bind_inv {A B} (m : script A) (f : A → script B) t b :
  m ≫= f = (t, inl b) →
  ∃ t1 a t2, m = (t1, inl a) ∧ f a = (t2, inl b) ∧ t = t1 ++ t2.
Proof.
  destruct m as [t1 [a|stop]]; [|done]. rewrite script_bind_ok.
  destruct (f a) as [t2 r] eqn:Hf. intros [= <- ->]. by exists t1, a, t2.
Qed.

Lemma test_import_inv env dep t b :
  test_import env dep = (t, inl b) →
  b = match import_module env dep with Imported => true | _ => false end
  ∧ t = [report_line env dep]
  ∧ ∀ e, import_module env dep ≠ ImportRaises e.
Proof.
  unfold test_import, report_line, say.
  destruct (import_module env dep); [| |done];
    destruct (console env _) as [[]|]; [|done| |done];
    intros [= <- <-]; done.
Qed.

Lemma test_dependencies_inv env deps all_deps_ok t b :
  test_dependencies env deps all_deps_ok = (t, inl b) →
  b = all_deps_ok
      && forallb (λ dep, match import_module env dep with
                         | Imported => true
                         | _ => false
                         end) deps
  ∧ t = map (report_line env) deps.
Proof.
  revert all_deps_ok t. induction deps as [|dep rest IH]; intros ok t.
  - intros [= <- <-]. by rewrite andb_true_r.
  - cbn [test_dependencies].
    intros (t1 & a & t2 & (-> & -> & _)%test_import_inv & Hrest & ->)%script_bind_inv.
    apply IH in Hrest as [-> ->]. split; [|done]. cbn [forallb].
    destruct (import_module env dep), ok; simpl; try done;
      by rewrite ?andb_false_r.
Qed.

Lemma say_total env line :
  (∀ line, console env line = Ok tt) → say env line = ([line], inl tt).
Proof. intros H. unfold say. by rewrite H. Qed.

Lemma say_all_total env lines :
  (∀ line, console env line = Ok tt) → say_all env lines = (lines, inl tt).
Proof.
  intros H. induction lines as [|line rest IH]; [done|].
  cbn [say_all]. by rewrite say_total, script_bind_ok, IH.
Qed.

Lemma test_import_total env dep :
  (∀ line, console env line = Ok tt) →
  (∀ e, import_module env dep ≠ ImportRaises e) →
  test_import env dep
  = ([report_line env dep],
     inl match import_module env dep with Imported => true | _ => false end).
Proof.
  intros Hc Hdep. unfold test_import, report_line.
  destruct (import_module env dep) as [| |e]; [| |by destruct (Hdep e)];
    by rewrite say_total, script_bind_ok.
Qed.

Lemma test_dependencies_total env deps all_deps_ok :
  (∀ line, console env line = Ok tt) →
  (∀ dep e, dep ∈ deps → import_module env dep ≠ ImportRaises e) →
  ∃ b, test_dependencies env deps all_deps_ok
       = (map (report_line env) deps, inl b).
Proof.
  intros Hc. revert all_deps_ok.
  induction deps as [|dep rest IH]; intros ok Himp; [by eexists|].
  cbn [test_dependencies].
  rewrite test_import_total, script_bind_ok;
    [|done|intros e; apply Himp; left].
  cbn [fst snd].
  edestruct IH as [b ->]; [intros d e Hd; apply Himp; by right|].
  by eexists.
Qed.

Lemma exits_with_one_say env line : exits_with_one (say env line).
Proof. intros t code. unfold say. by destruct (console env line). Qed.

Lemma exits_with_one_ret {A} (a : A) : exits_with_one (mret a : script A).
Proof. by intros t code. Qed.

Lemma exits_with_one_bind {A B} (m : script A) (f : A → script B) :
  exits_with_one m → (∀ a, exits_with_one (f a)) → exits_with_one (m ≫= f).
Proof.
  intros Hm Hf t code. destruct m as [t1 [a|stop]].
  - rewrite script_bind_ok. destruct (f a) as [t2 r] eqn:Ha. cbn [fst snd].
    intros [= <- ->]. by eapply Hf.
  - intros [= <- ->]. by eapply Hm.
Qed.

Lemma exits_with_one_say_all env lines : exits_with_one (say_all env lines).
Proof.
  induction lines as [|line rest IH]; [apply exits_with_one_ret|].
  apply exits_with_one_bind; [apply exits_with_one_say|done].
Qed.

Lemma exits_with_one_test_import env dep : exits_with_one (test_import env dep).
Proof.
  unfold test_import. destruct (import_module env dep); [| |done];
    (apply exits_with_one_bind; [apply exits_with_one_say|]);
    intros _; apply exits_with_one_ret.
Qed.

Lemma exits_with_one_test_dependencies env deps all_deps_ok :
  exits_with_one (test_dependencies env deps all_deps_ok).
Proof.
  revert all_deps_ok.
  induction deps as [|dep rest IH]; intros ok; [apply exits_with_one_ret|].
  apply exits_with_one_bind; [apply exits_with_one_test_import|done].
Qed.

Lemma exits_with_one_test_ocr_utility env :
  exits_with_one (test_ocr_utility env).
Proof.
  unfold test_ocr_utility. destruct (import_ocr_utils env); [| | |done].
  - apply exits_with_one_bind; [apply exits_with_one_say|].
    intros _; apply exits_with_one_ret.
  - apply exits_with_one_bind; [apply exits_with_one_say|].
    intros _; apply exits_with_one_ret.
  - do 2 (apply exits_with_one_bind; [apply exits_with_one_say|intros _]).
    by intros t code [= _ <-].
Qed.

Lemma exits_with_one_installation_main env :
  exits_with_one (installation_main env).
Proof.
  unfold installation_main.
  do 2 (apply exits_with_one_bind; [apply exits_with_one_say|intros _]).
  apply exits_with_one_bind; [apply exits_with_one_test_dependencies|intros ok].
  do 2 (apply exits_with_one_bind; [apply exits_with_one_say|intros _]).
  apply exits_with_one_bind; [apply exits_with_one_test_ocr_utility|intros ocr].
  apply exits_with_one_bind; [apply exits_with_one_say|intros _].
  apply exits_with_one_bind; [apply exits_with_one_say_all|intros _].
  apply exits_with_one_ret.
Qed.


